(** * Webotron bucket synchronisation: a model of [bucket.py]

    The development follows [01-webotron/webotron/bucket.py]: the
    [BucketManager] methods [init_bucket], [load_manifest], [hash_data],
    [gen_etag], [upload_file] and [sync] are embedded as functions over an
    explicit program state, and the statements of the specification are
    proved about them.

    Library code that the module calls is modelled as follows.
    - [hashlib.md5] is the MD5 function of RFC 1321, written out in
      [Module MD5] and checked against the RFC test vectors.
    - [pathlib] paths are an anchor and a list of components; the
      separator used by [str] is the one of the host.
    - [mimetypes.guess_type], [open], the directory tree and the storage
      provider (boto3) are the fields of the interface [Externals]. *)

From Stdlib Require Import ZArith NArith List Ascii String Strings.Byte Lia.
From Stdlib Require Import DecimalString.
From stdpp Require Import base option list strings gmap.
From Equations Require Import Equations.
From Equations.Prop Require Import Logic.

Import ListNotations.
Local Open Scope Z_scope.

(** ** hashlib.md5 (RFC 1321) *)

Module MD5.

(** 32-bit words are integers in [0, 2^32). *)
Definition mask32 : Z := 0xffffffff.
Definition wrap (x : Z) : Z := Z.land x mask32.
Definition add32 (x y : Z) : Z := wrap (x + y).
Definition not32 (x : Z) : Z := Z.lxor x mask32.
Definition rotl32 (x : Z) (c : Z) : Z :=
  Z.lor (wrap (Z.shiftl x c)) (Z.shiftr x (32 - c)).

(** Per-round shift amounts. *)
Definition S_table : list Z :=
  [ 7; 12; 17; 22;  7; 12; 17; 22;  7; 12; 17; 22;  7; 12; 17; 22;
    5;  9; 14; 20;  5;  9; 14; 20;  5;  9; 14; 20;  5;  9; 14; 20;
    4; 11; 16; 23;  4; 11; 16; 23;  4; 11; 16; 23;  4; 11; 16; 23;
    6; 10; 15; 21;  6; 10; 15; 21;  6; 10; 15; 21;  6; 10; 15; 21 ].

(** K[i] = floor (2^32 * |sin (i + 1)|). *)
Definition K_table : list Z :=
  [ 0xd76aa478; 0xe8c7b756; 0x242070db; 0xc1bdceee;
    0xf57c0faf; 0x4787c62a; 0xa8304613; 0xfd469501;
    0x698098d8; 0x8b44f7af; 0xffff5bb1; 0x895cd7be;
    0x6b901122; 0xfd987193; 0xa679438e; 0x49b40821;
    0xf61e2562; 0xc040b340; 0x265e5a51; 0xe9b6c7aa;
    0xd62f105d; 0x02441453; 0xd8a1e681; 0xe7d3fbc8;
    0x21e1cde6; 0xc33707d6; 0xf4d50d87; 0x455a14ed;
    0xa9e3e905; 0xfcefa3f8; 0x676f02d9; 0x8d2a4c8a;
    0xfffa3942; 0x8771f681; 0x6d9d6122; 0xfde5380c;
    0xa4beea44; 0x4bdecfa9; 0xf6bb4b60; 0xbebfbc70;
    0x289b7ec6; 0xeaa127fa; 0xd4ef3085; 0x04881d05;
    0xd9d4d039; 0xe6db99e5; 0x1fa27cf8; 0xc4ac5665;
    0xf4292244; 0x432aff97; 0xab9423a7; 0xfc93a039;
    0x655b59c3; 0x8f0ccc92; 0xffeff47d; 0x85845dd1;
    0x6fa87e4f; 0xfe2ce6e0; 0xa3014314; 0x4e0811a1;
    0xf7537e82; 0xbd3af235; 0x2ad7d2bb; 0xeb86d391 ].

Record regs := Regs { rA : Z; rB : Z; rC : Z; rD : Z }.

Definition init_regs : regs :=
  Regs 0x67452301 0xefcdab89 0x98badcfe 0x10325476.

(** The mixing function and message index of round [i]. *)
Definition round_F (i : Z) (b c d : Z) : Z :=
  if i <? 16 then Z.lor (Z.land b c) (Z.land (not32 b) d)
  else if i <? 32 then Z.lor (Z.land d b) (Z.land (not32 d) c)
  else if i <? 48 then Z.lxor (Z.lxor b c) d
  else Z.lxor c (Z.lor b (not32 d)).

Definition round_g (i : Z) : Z :=
  if i <? 16 then i
  else if i <? 32 then (5 * i + 1) mod 16
  else if i <? 48 then (3 * i + 5) mod 16
  else (7 * i) mod 16.

Definition nthZ (l : list Z) (i : Z) : Z := nth (Z.to_nat i) l 0.

Definition round (M : list Z) (r : regs) (i : Z) : regs :=
  let f := add32 (add32 (add32 (round_F i (rB r) (rC r) (rD r)) (rA r))
                        (nthZ K_table i)) (nthZ M (round_g i)) in
  Regs (rD r) (add32 (rB r) (rotl32 f (nthZ S_table i))) (rB r) (rC r).

Definition rounds : list Z := map Z.of_nat (seq 0 64).

(** One 64-byte block, given as sixteen little-endian words. *)
Definition process_block (h : regs) (M : list Z) : regs :=
  let r := fold_left (round M) rounds h in
  Regs (add32 (rA h) (rA r)) (add32 (rB h) (rB r))
       (add32 (rC h) (rC r)) (add32 (rD h) (rD r)).

Definition byteZ (b : byte) : Z := Z.of_N (Byte.to_N b).

Definition Zbyte (z : Z) : byte :=
  match Byte.of_N (Z.to_N (Z.land z 0xff)) with
  | Some b => b
  | None => x00
  end.

(** [n] little-endian bytes of [z]. *)
Fixpoint le_bytes (n : nat) (z : Z) : list byte :=
  match n with
  | O => []
  | S n' => Zbyte z :: le_bytes n' (Z.shiftr z 8)
  end.

Fixpoint le_word (bs : list byte) : Z :=
  match bs with
  | [] => 0
  | b :: bs' => byteZ b + 256 * le_word bs'
  end.

(** Padding: a 1 bit, zeros up to 56 mod 64, then the bit length on 64
    bits, little-endian. *)
Definition pad_zeros (len : nat) : nat := ((119 - len mod 64) mod 64)%nat.

Definition pad (msg : list byte) : list byte :=
  msg ++ x80 :: repeat x00 (pad_zeros (length msg))
      ++ le_bytes 8 (Z.land (8 * Z.of_nat (length msg)) 0xffffffffffffffff).

(** Cut a byte string into groups of [n] bytes; [fuel] bounds the
    number of groups. *)
Fixpoint groups (fuel : nat) (n : nat) (bs : list byte) : list (list byte) :=
  match fuel with
  | O => []
  | S fuel' =>
      match bs with
      | [] => []
      | _ => firstn n bs :: groups fuel' n (skipn n bs)
      end
  end.

Definition block_words (blk : list byte) : list Z :=
  map le_word (groups 16 4 blk).

Definition blocks (bs : list byte) : list (list Z) :=
  map block_words (groups (length bs) 64 bs).

Definition digest_of_regs (r : regs) : list byte :=
  le_bytes 4 (rA r) ++ le_bytes 4 (rB r) ++ le_bytes 4 (rC r) ++ le_bytes 4 (rD r).

(** The 16-byte digest of a message. *)
Definition md5 (msg : list byte) : list byte :=
  digest_of_regs (fold_left process_block (blocks (pad msg)) init_regs).

End MD5.

(** ** Text helpers: hexadecimal and decimal formatting *)

Definition hex_digit (n : N) : ascii :=
  match n with
  | 0%N => "0" | 1%N => "1" | 2%N => "2" | 3%N => "3" | 4%N => "4"
  | 5%N => "5" | 6%N => "6" | 7%N => "7" | 8%N => "8" | 9%N => "9"
  | 10%N => "a" | 11%N => "b" | 12%N => "c" | 13%N => "d" | 14%N => "e"
  | _ => "f"
  end%char.

(** [bytes.hex()]: two lowercase digits per byte. *)
Fixpoint hex (bs : list byte) : string :=
  match bs with
  | [] => EmptyString
  | b :: bs' =>
      let n := Byte.to_N b in
      String (hex_digit (n / 16)) (String (hex_digit (n mod 16)) (hex bs'))
  end.

(** [str(n)] for a non-negative integer. *)
Definition str_of_nat (n : nat) : string :=
  NilZero.string_of_uint (Nat.to_uint n).

(** The double-quote character that delimits an ETag. *)
Definition dquote : string := String "034"%char EmptyString.

(** [(sep).join(parts)]. *)
Fixpoint join (sep : string) (parts : list string) : string :=
  match parts with
  | [] => EmptyString
  | [p] => p
  | p :: ps => p +:+ sep +:+ join sep ps
  end.

(** ** Binary files and hash objects *)

Definition CHUNK_SIZE : N := 8388608.

(** [f.read(size)] on a binary file whose unread content is [f]: the bytes
    returned (at most [size] of them, fewer only at end of file) and the
    content left unread. *)
Fixpoint read (size : N) (f : list byte) : list byte * list byte :=
  match f with
  | [] => ([], [])
  | b :: rest =>
      if (size =? 0)%N then ([], f)
      else let '(data, f') := read (N.pred size) rest in (b :: data, f')
  end.

(** A [hashlib] md5 object is determined by the bytes fed to it. *)
Record md5_hash := Md5Hash { fed : list byte }.

Definition md5_new : md5_hash := Md5Hash [].
Definition update (h : md5_hash) (data : list byte) : md5_hash :=
  Md5Hash (fed h ++ data).
Definition digest (h : md5_hash) : list byte := MD5.md5 (fed h).
Definition hexdigest (h : md5_hash) : string := hex (digest h).

(** [BucketManager.hash_data]. *)
Definition hash_data (data : list byte) : md5_hash :=
  let hash := md5_new in
  update hash data.

(** The [while True] loop of [gen_etag], reading [size] bytes at a time:
    [hashes] is the list built so far, the result is the list at [break]. *)
Equations? read_loop (size : N) (f : list byte) (hashes : list md5_hash)
  : list md5_hash by wf (length f) lt :=
  read_loop size f hashes with inspect (read size f) := {
    | exist _ (data, f') Heq with data := {
      | [] => hashes
      | _ :: _ => read_loop size f' (hashes ++ [hash_data data]) } }.
Proof.
  enough (H : forall (g : list byte) (n : N) (d g' : list byte),
             read n g = (d, g') -> d <> [] -> (length g' < length g)%nat)
    by (eapply H; [eassumption | discriminate]).
  clear. induction g as [|x g IH]; intros n d g' Heq Hd; simpl in Heq.
  - injection Heq as <- <-. congruence.
  - destruct (n =? 0)%N; [injection Heq as <- <-; congruence|].
    destruct (read (N.pred n) g) as [d1 g1] eqn:E.
    injection Heq as <- <-. destruct d1 as [|y d1].
    + destruct g as [|z g]; simpl in E.
      * injection E as <-. simpl. lia.
      * destruct (N.pred n =? 0)%N.
        -- injection E as <-. simpl. lia.
        -- destruct (read (N.pred (N.pred n)) g). discriminate.
    + assert (length g1 < length g)%nat by (eapply IH; [eassumption | discriminate]).
      simpl. lia.
Qed.

(** [reduce(lambda x, y: x + y, digests)] on a non-empty sequence. *)
Definition reduce_concat (digests : list (list byte)) : list byte :=
  match digests with
  | [] => []
  | d :: ds => fold_left (fun x y => x ++ y) ds d
  end.

(** The part of [gen_etag] after the file is closed: [None] is Python's
    [None], returned by the bare [return]. *)
Definition etag_of_hashes (hashes : list md5_hash) : option string :=
  match hashes with
  | [] => None
  | [h] => Some (dquote +:+ hexdigest h +:+ dquote)
  | _ =>
      let digests := map digest hashes in
      let hash := hash_data (reduce_concat digests) in
      Some (dquote +:+ hexdigest hash +:+ "-" +:+ str_of_nat (length hashes) +:+ dquote)
  end.

(** [gen_etag] on the content of the opened file. *)
Definition gen_etag_bytes (content : list byte) : option string :=
  etag_of_hashes (read_loop CHUNK_SIZE content []).

(** ** Exceptions *)

Inductive exn :=
| OSError (filename : string)
| ValueError
| ClientError (code message : string)
| OtherError (name : string).

(** ** pathlib paths and the local directory tree *)

(** A pure path: the anchor (drive and root, empty for a relative path)
    and the components below it. *)
Record path := Path { anchor : string; parts : list string }.

(** [p / name]. *)
Definition joinpath (p : path) (name : string) : path :=
  Path (anchor p) (parts p ++ [name]).

(** What a directory entry is: the walker tells regular files and
    directories apart with [is_file] and [is_dir]; anything else (socket,
    device, dangling link) is neither. [Dir entries] is a directory that
    [iterdir] lists, with what it yields; [Unlistable e] is a directory
    for which [iterdir] raises [e] (no permission to read it). *)
#[warnings="-register-all"]
Inductive node :=
| File
| Dir (entries : list (string * node))
| Other
| Unlistable (error : exn).

Definition is_dir (n : node) : bool :=
  match n with Dir _ | Unlistable _ => true | _ => false end.

Definition is_file (n : node) : bool :=
  match n with File => true | _ => false end.

(** [l] without its prefix [pre], if [pre] is a prefix of [l]. *)
Fixpoint strip_prefix (pre l : list string) : option (list string) :=
  match pre, l with
  | [], _ => Some l
  | x :: pre', y :: l' => if decide (x = y) then strip_prefix pre' l' else None
  | _ :: _, [] => None
  end.

(** ** The remote store and the program state *)

Inductive result (A : Type) :=
| Return (a : A)
| Raise (e : exn).
Arguments Return {A} a.
Arguments Raise {A} e.

(** A bucket resource: a handle, identified by the bucket's name. *)
Record bucket := Bucket { name : string }.

(** One entry of a listing page, and a page of [list_objects_v2]: the
    ['Contents'] entry is absent from a page without objects. *)
Record s3_object := S3Object { Key : string; ETag : string }.
Record page := Page { Contents : option (list s3_object) }.

(** [boto3.s3.transfer.TransferConfig]. *)
Record TransferConfig :=
  { multipart_chunksize : N; multipart_threshold : N }.

(** The arguments of one call of [bucket.upload_file]. *)
Record upload_call := UploadCall {
  up_bucket : bucket;
  up_path : string;
  up_key : string;
  up_ContentType : string;
  up_Config : TransferConfig }.

(** What the module uses without defining it: the host's file system and
    path flavour, [mimetypes], and the storage provider, whose state has
    type [remote]. *)
Class Externals (remote : Type) := {
  (** [os.sep], the separator [str] puts between path components. *)
  sep : string;
  (** [Path(pathname).expanduser().resolve()]. *)
  expand_resolve : string -> path;
  (** The directory tree found at a path. *)
  tree_at : path -> node;
  (** [open(path, 'rb')] and the bytes of the file. *)
  open_rb : string -> result (list byte);
  (** [mimetypes.guess_type]: the type and the encoding. *)
  guess_type : string -> option string * option string;
  (** [s3.create_bucket(Bucket=name)]. *)
  create_bucket : string -> remote -> result bucket * remote;
  (** [paginator.paginate(Bucket=name)]: the pages obtained, and the
      exception that ended the iteration if one did. *)
  paginate : string -> remote -> list page * option exn;
  (** [bucket.upload_file(...)]. *)
  bucket_upload_file : upload_call -> remote -> result unit * remote }.

(** The state a method runs in: the manager's [self.manifest], the state
    of the provider, and the log of the calls of [bucket.upload_file]
    made so far. *)
Record state (remote : Type) := State {
  manifest : gmap string string;
  s3 : remote;
  uploads : list upload_call }.
Arguments State {remote} manifest s3 uploads.
Arguments manifest {remote} s.
Arguments s3 {remote} s.
Arguments uploads {remote} s.

(** Computations that read and write the state and may raise. *)
Definition M (remote A : Type) : Type := state remote -> result A * state remote.

Definition ret {remote A} (a : A) : M remote A := fun st => (Return a, st).

Definition raise {remote A} (e : exn) : M remote A := fun st => (Raise e, st).

Definition bind {remote A B} (m : M remote A) (k : A -> M remote B) : M remote B :=
  fun st =>
    match m st with
    | (Return a, st') => k a st'
    | (Raise e, st') => (Raise e, st')
    end.

(** [try: m  except Exception as error: handler(error)]. *)
Definition try_except {remote A} (m : M remote A) (handler : exn -> M remote A)
  : M remote A :=
  fun st =>
    match m st with
    | (Return a, st') => (Return a, st')
    | (Raise e, st') => handler e st'
    end.

Definition lift {remote A} (r : result A) : M remote A := fun st => (r, st).

Notation "'let!' x ':=' m 'in' k" := (bind m (fun x => k))
  (at level 10, x name, m at level 100, k at level 200, only parsing).

(** [x or d] on a string or [None]. *)
Definition py_or (x : option string) (d : string) : string :=
  match x with
  | Some EmptyString | None => d
  | Some s => s
  end.

(** [s == v] where [s] is a string and [v] a string or [None]. *)
Definition py_eq (s : string) (v : option string) : bool :=
  match v with
  | Some t => String.eqb s t
  | None => false
  end.

(** [for x in xs: body(x)]. *)
Fixpoint for_each {remote A} (xs : list A) (body : A -> M remote unit) : M remote unit :=
  match xs with
  | [] => ret tt
  | x :: xs' => let! _ := body x in for_each xs' body
  end.

(** ** BucketManager *)

Section BucketManager.
Context {remote : Type} {ext : Externals remote}.

(** [str(p)]. *)
Definition str_path (p : path) : string :=
  match anchor p, parts p with
  | EmptyString, [] => "."
  | a, ps => a +:+ join sep ps
  end.

(** [p.relative_to(other)]. *)
Definition relative_to (p other : path) : result path :=
  if decide (anchor p = anchor other) then
    match strip_prefix (parts other) (parts p) with
    | Some rest => Return (Path EmptyString rest)
    | None => Raise ValueError
    end
  else Raise ValueError.

(** [self.transfer_config], set in [__init__]. *)
Definition transfer_config : TransferConfig :=
  {| multipart_chunksize := CHUNK_SIZE; multipart_threshold := CHUNK_SIZE |}.

(** The state of a manager just built by [__init__]. *)
Definition new_manager (r : remote) : state remote := State ∅ r [].

(** The calls into the provider, as computations. *)
Definition call_create_bucket (bucket_name : string) : M remote bucket :=
  fun st =>
    let '(r, s') := create_bucket bucket_name (s3 st) in
    (r, State (manifest st) s' (uploads st)).

Definition call_upload_file (c : upload_call) : M remote unit :=
  fun st =>
    let '(r, s') := bucket_upload_file c (s3 st) in
    (r, State (manifest st) s' (uploads st ++ [c])).

(** [init_bucket]. *)
Definition init_bucket (bucket_name : string) : M remote bucket :=
  try_except (call_create_bucket bucket_name)
    (fun error =>
       match error with
       | ClientError code _ =>
           if String.eqb code "BucketAlreadyOwnedByYou"
           then ret (Bucket bucket_name)
           else raise error
       | _ => raise error
       end).

(** The body of the inner loop of [load_manifest], and the loop over
    the objects of one page. *)
Definition load_object (m : gmap string string) (obj : s3_object)
  : gmap string string :=
  <[Key obj := ETag obj]> m.

Definition load_page (m : gmap string string) (pg : page) : gmap string string :=
  fold_left load_object (default [] (Contents pg)) m.

(** [load_manifest]: the pages that arrive are merged into
    [self.manifest]; an exception from the paginator propagates. *)
Definition load_manifest (b : bucket) : M remote unit :=
  fun st =>
    let '(pages, err) := paginate (name b) (s3 st) in
    let st' := State (fold_left load_page pages (manifest st)) (s3 st) (uploads st) in
    match err with
    | None => (Return tt, st')
    | Some e => (Raise e, st')
    end.

(** [gen_etag]. *)
Definition gen_etag (path : string) : M remote (option string) :=
  let! content := lift (open_rb path) in
  ret (gen_etag_bytes content).

(** [upload_file]. *)
Definition upload_file (b : bucket) (path key : string) : M remote unit :=
  let content_type := py_or (fst (guess_type key)) "text/html" in
  let! etag := gen_etag path in
  fun st =>
    if py_eq (default EmptyString (manifest st !! key)) etag then
      ret tt st
    else
      call_upload_file
        {| up_bucket := b; up_path := path; up_key := key;
           up_ContentType := content_type; up_Config := transfer_config |} st.

(** The inner function [handle_directory] of [sync]; [n] is what the
    file system holds at [target]. *)
Fixpoint handle_directory (b : bucket) (root target : path) (n : node)
  : M remote unit :=
  match n with
  | Dir entries =>
      (fix loop (es : list (string * node)) : M remote unit :=
         match es with
         | [] => ret tt
         | (nm, c) :: es' =>
             let p := joinpath target nm in
             let! _ := (if is_dir c then handle_directory b root p c else ret tt) in
             let! _ := (if is_file c then
                          let! key := lift (relative_to p root) in
                          upload_file b (str_path p) (str_path key)
                        else ret tt) in
             loop es'
         end) entries
  | Unlistable error => raise error
  | _ => raise (OSError (str_path target))
  end.

(** [sync]. *)
Definition sync (pathname bucket_name : string) : M remote unit :=
  let b := Bucket bucket_name in
  let! _ := load_manifest b in
  let root := expand_resolve pathname in
  handle_directory b root root (tree_at root).

End BucketManager.

(** ** Vocabulary of the statements *)

(** [cs] cuts a stream into chunks of [size] bytes: every chunk but the
    last has exactly [size] bytes, the last is non-empty and has at most
    [size]. The empty stream has no chunk. *)
Fixpoint chunked (size : N) (cs : list (list byte)) : Prop :=
  match cs with
  | [] => True
  | c :: cs' =>
      match cs' with
      | [] => c <> [] /\ (N.of_nat (length c) <= size)%N
      | _ :: _ => N.of_nat (length c) = size /\ chunked size cs'
      end
  end.

(** The call of [bucket.upload_file] that [upload_file] makes when it
    does not skip. *)
Definition the_upload {remote : Type} {ext : Externals remote}
    (b : bucket) (path key : string) : upload_call :=
  {| up_bucket := b; up_path := path; up_key := key;
     up_ContentType := py_or (fst (guess_type key)) "text/html";
     up_Config := transfer_config |}.

(** The objects of a listing, page after page. *)
Definition listed (pages : list page) : list s3_object :=
  flat_map (fun pg => default [] (Contents pg)) pages.

(** A listing names every key with one fingerprint only, as the listing
    of a bucket does: its keys are unique. *)
Definition single_valued (objs : list s3_object) : Prop :=
  forall o1 o2, In o1 objs -> In o2 objs -> Key o1 = Key o2 -> ETag o1 = ETag o2.

(** The regular files below a directory, in the order the walk meets
    them, each as the list of names that leads to it from the directory. *)
Fixpoint files_in (n : node) : list (list string) :=
  match n with
  | Dir entries =>
      (fix go (es : list (string * node)) : list (list string) :=
         match es with
         | [] => []
         | (nm, c) :: es' =>
             map (cons nm) (files_in c)
               ++ (if is_file c then [[nm]] else []) ++ go es'
         end) entries
  | _ => []
  end.

(** What [sync] does with the file reached by the names [rel] from the
    root: the local path is the root extended by [rel], the key is [rel]
    joined by the separator. *)
Definition sync_file {remote : Type} {ext : Externals remote}
    (b : bucket) (root : path) (rel : list string) : M remote unit :=
  upload_file b (anchor root +:+ join sep (parts root ++ rel)) (join sep rel).

(** The file at [pre ++ rel] below the root, as [handle_directory]
    passes it to [upload_file] when it walks the directory at [pre]. *)
Definition visit {remote : Type} {ext : Externals remote}
    (b : bucket) (root : path) (pre rel : list string) : M remote unit :=
  upload_file b (str_path (Path (anchor root) (parts root ++ pre ++ rel)))
                (str_path (Path EmptyString (pre ++ rel))).

(** One thing the walk meets: a regular file, as the names that lead to
    it, or the exception of a directory that cannot be listed. *)
Definition below (nm : string) (ev : list string + exn) : list string + exn :=
  match ev with
  | inl rel => inl (nm :: rel)
  | inr e => inr e
  end.

(** What the walk meets below a directory, in order. *)
Fixpoint walk (n : node) : list (list string + exn) :=
  match n with
  | Dir entries =>
      (fix go (es : list (string * node)) : list (list string + exn) :=
         match es with
         | [] => []
         | (nm, c) :: es' =>
             map (below nm) (walk c)
               ++ (if is_file c then [inl [nm]] else []) ++ go es'
         end) entries
  | Unlistable e => [inr e]
  | _ => []
  end.

Definition walk_file (ev : list string + exn) : option (list string) :=
  match ev with
  | inl rel => Some rel
  | inr _ => None
  end.

(** Every directory of the tree can be listed. *)
Fixpoint listable (n : node) : bool :=
  match n with
  | Dir entries =>
      (fix all (es : list (string * node)) : bool :=
         match es with
         | [] => true
         | (_, c) :: es' => listable c && all es'
         end) entries
  | Unlistable _ => false
  | _ => true
  end.

(** What [sync] does with one thing the walk meets: a file is handed to
    [upload_file], the exception of a directory is raised. *)
Definition walk_step {remote : Type} {ext : Externals remote}
    (b : bucket) (root : path) (ev : list string + exn) : M remote unit :=
  match ev with
  | inl rel => sync_file b root rel
  | inr e => raise e
  end.

Definition visit_step {remote : Type} {ext : Externals remote}
    (b : bucket) (root : path) (pre : list string) (ev : list string + exn)
  : M remote unit :=
  match ev with
  | inl rel => visit b root pre rel
  | inr e => raise e
  end.

(** ** A concrete host, for examples

    A small site under [srv], a provider that remembers the buckets it
    created, and a file larger than one chunk. The host comes in two
    flavours that differ in the path separator and anchor, as [pathlib]
    does between POSIX and Windows. *)

Definition big_chunk : list byte := repeat x00 (N.to_nat CHUNK_SIZE).

Definition demo_tree : node :=
  Dir [ ("index.html", File);
        ("sub", Dir [ ("dir", Dir [ ("a.txt", File) ]) ]);
        ("run.sock", Other) ]%string.

Definition ends_with (suffix s : string) : bool :=
  (String.length suffix <=? String.length s)%nat
  && String.eqb (substring (String.length s - String.length suffix)
                           (String.length suffix) s) suffix.

Definition demo_guess_type (url : string) : option string * option string :=
  if ends_with ".html" url then (Some "text/html", None)
  else if ends_with ".txt" url then (Some "text/plain", None)
  else if ends_with ".css" url then (Some "text/css", None)
  else (None, None).

Definition demo_open (separator anch : string) (p : string) : result (list byte) :=
  let at_ (ps : list string) := anch +:+ join separator ps in
  if String.eqb p (at_ ["srv"; "site"; "index.html"]) then Return [x61]
  else if String.eqb p (at_ ["srv"; "site"; "sub"; "dir"; "a.txt"]) then Return [x62; x0a]
  else if String.eqb p (at_ ["srv"; "empty.dat"]) then Return []
  else if String.eqb p (at_ ["srv"; "big.bin"]) then Return (concat [big_chunk; [x61]])
  else Raise (OSError p).

Definition demo_create_bucket (bucket_name : string) (owned : list string)
  : result bucket * list string :=
  if String.eqb bucket_name "taken" then
    (Raise (ClientError "BucketAlreadyExists" "the name is in use"), owned)
  else if existsb (String.eqb bucket_name) owned then
    (Raise (ClientError "BucketAlreadyOwnedByYou" "you own this bucket"), owned)
  else (Return (Bucket bucket_name), bucket_name :: owned).

Definition etag_a : string := dquote +:+ "0cc175b9c0f1b6a831c399e269772661" +:+ dquote.

Definition demo_pages : list page :=
  [ Page (Some [S3Object "index.html" etag_a; S3Object "k2" "e2"]);
    Page (Some [S3Object "k3" "e3"; S3Object "k4" "e4"]);
    Page (Some [S3Object "k5" "e5"; S3Object "k6" "e6"]) ]%string.

Definition demo_paginate (bucket_name : string) (owned : list string)
  : list page * option exn :=
  if String.eqb bucket_name "site" then (demo_pages, None)
  else if String.eqb bucket_name "archive" then
    ([Page (Some [S3Object "old.txt" "e0"])], None)
  else if String.eqb bucket_name "private" then
    ([], Some (ClientError "AccessDenied" "Access Denied"))
  else ([Page None], None).

Definition demo_host (separator anch : string) : Externals (list string) := {|
  sep := separator;
  expand_resolve := fun pathname => Path anch ["srv"; pathname]%string;
  tree_at := fun _ => demo_tree;
  open_rb := demo_open separator anch;
  guess_type := demo_guess_type;
  create_bucket := demo_create_bucket;
  paginate := demo_paginate;
  bucket_upload_file := fun _ owned => (Return tt, owned) |}.

Definition posix_host : Externals (list string) := demo_host "/" "/".
Definition windows_host : Externals (list string) := demo_host "\" "C:\".

(** A manager on the POSIX host whose manifest knows [index.html] with the
    fingerprint of its current content. *)
Definition demo_state : state (list string) :=
  State {[ "index.html"%string := etag_a ]} [] [].

(** ** The other methods of [BucketManager] and the commands of [webotron.py] *)

(** [WebsiteConfiguration], as [configure_website] builds it. *)
Record WebsiteConfiguration := {
  ErrorDocument_Key : string;
  IndexDocument_Suffix : string }.

(** What these methods and commands use without defining it: the
    location lookup, the policy and website resources of a bucket
    (boto3), the endpoint table of the module [util], which
    [get_bucket_url] reads through [util.get_endpoint(region).host], and
    the test of [click.Path(exists=True)] on a command-line argument. *)
Class Collaborators (remote : Type) := {
  (** Whether the path given on the command line exists. *)
  path_exists : string -> bool;
  (** [client.get_bucket_location(Bucket=name)["LocationConstraint"]]. *)
  get_bucket_location : string -> remote -> result (option string) * remote;
  (** [util.get_endpoint(region).host]. *)
  endpoint_host : string -> result string;
  (** [bucket.Policy().put(Policy=policy)]. *)
  policy_put : bucket -> string -> remote -> result unit * remote;
  (** [bucket.Website().put(WebsiteConfiguration=...)]. *)
  website_put : bucket -> WebsiteConfiguration -> remote -> result unit * remote }.

(** A call into the provider as a computation: it changes the provider's
    state only. *)
Definition call_remote {remote A : Type} (f : remote -> result A * remote)
  : M remote A :=
  fun st => let '(r, s') := f (s3 st) in (r, State (manifest st) s' (uploads st)).

(** [c.isspace()] for a character of the ASCII range. *)
Definition is_space (c : ascii) : bool :=
  let n := nat_of_ascii c in
  ((9 <=? n) && (n <=? 13) || (28 <=? n) && (n <=? 32))%nat.

Fixpoint lstrip_chars (l : list ascii) : list ascii :=
  match l with
  | [] => []
  | c :: l' => if is_space c then lstrip_chars l' else l
  end.

(** [s.strip()]. *)
Definition strip (s : string) : string :=
  string_of_list_ascii
    (rev (lstrip_chars (rev (lstrip_chars (list_ascii_of_string s))))).

Definition nl : string := String "010"%char EmptyString.

(** A word between double quotes. *)
Definition q (s : string) : string := dquote +:+ s +:+ dquote.

(** The policy template of [set_policy], before and after its [%s]. *)
Definition policy_head : string :=
  nl +:+ "        {" +:+ nl
  +:+ "          " +:+ q "Version" +:+ ":" +:+ q "2012-10-17" +:+ "," +:+ nl
  +:+ "          " +:+ q "Statement" +:+ ":[{" +:+ nl
  +:+ "          " +:+ q "Sid" +:+ ":" +:+ q "PublicReadGetObject" +:+ "," +:+ nl
  +:+ "          " +:+ q "Effect" +:+ ":" +:+ q "Allow" +:+ "," +:+ nl
  +:+ "          " +:+ q "Principal" +:+ ": " +:+ q "*" +:+ "," +:+ nl
  +:+ "          " +:+ q "Action" +:+ ":[" +:+ q "s3:GetObject" +:+ "]," +:+ nl
  +:+ "              " +:+ q "Resource" +:+ ":[" +:+ dquote +:+ "arn:aws:s3:::".

Definition policy_tail : string :=
  "/*" +:+ dquote +:+ nl
  +:+ "              ]" +:+ nl
  +:+ "            }" +:+ nl
  +:+ "          ]" +:+ nl
  +:+ "        }".

(** The command-line process: the manager it built and what it printed. *)
Record cli_state (remote : Type) := CliState {
  manager : state remote;
  stdout : list string }.
Arguments CliState {remote} manager stdout.
Arguments manager {remote} c.
Arguments stdout {remote} c.

Section Commands.
Context {remote : Type} {ext : Externals remote} {col : Collaborators remote}.

(** [get_region_name]. *)
Definition get_region_name (b : bucket) : M remote string :=
  let! bucket_location := call_remote (get_bucket_location (name b)) in
  ret (py_or bucket_location "us-east-1").

(** [get_bucket_url]. *)
Definition get_bucket_url (b : bucket) : M remote string :=
  let! region := get_region_name b in
  let! host := lift (endpoint_host region) in
  ret ("http://" +:+ name b +:+ "." +:+ host).

(** [set_policy]. *)
Definition set_policy (b : bucket) : M remote unit :=
  let policy := policy_head +:+ name b +:+ policy_tail in
  let policy := strip policy in
  call_remote (policy_put b policy).

(** [configure_website]. *)
Definition configure_website (b : bucket) : M remote unit :=
  call_remote (website_put b {| ErrorDocument_Key := "error.html";
                                IndexDocument_Suffix := "index.html" |}).

(** The command [setup-bucket] of [webotron.py]. *)
Definition setup_bucket (bucket_name : string) : M remote unit :=
  let! s3_bucket := init_bucket bucket_name in
  let! _ := set_policy s3_bucket in
  configure_website s3_bucket.

(** The command [sync] of [webotron.py]. The argument [pathname] has the
    type [click.Path(exists=True)]: for a path that does not exist click
    rejects the argument ([BadParameter]) and the function is not called.
    Otherwise the synchronisation runs, then the URL of the bucket goes
    to standard output. *)
Definition sync_command (pathname bucket_name : string) (c : cli_state remote)
  : result unit * cli_state remote :=
  if path_exists pathname then
    match sync pathname bucket_name (manager c) with
    | (Raise e, st) => (Raise e, CliState st (stdout c))
    | (Return _, st) =>
        match get_bucket_url (Bucket bucket_name) st with
        | (Raise e, st') => (Raise e, CliState st' (stdout c))
        | (Return url, st') => (Return tt, CliState st' (stdout c ++ [url]))
        end
    end
  else (Raise (OtherError "BadParameter"), c).

(** The group callback [cli] builds a session and a new manager before
    the command runs; [r] is the state of the provider the session
    reaches. *)
Definition cli (r : remote) : cli_state remote := CliState (new_manager r) [].

End Commands.

(** The fingerprint the manifest ends with for key [k] when the objects
    [objs] are loaded: the one listed last for [k], if any. *)
Definition last_etag (objs : list s3_object) (k : string) : option string :=
  fold_left (fun acc o => if decide (Key o = k) then Some (ETag o) else acc)
            objs None.

(** The path [sync] opens for the file reached by [rel] from the root. *)
Definition file_path {remote : Type} {ext : Externals remote}
    (root : path) (rel : list string) : string :=
  anchor root +:+ join sep (parts root ++ rel).

(** ** A second concrete host

    Four roots: [clean] holds one file that the listing of the bucket
    [site] knows with its current fingerprint, [broken] holds a file that
    cannot be opened between two that can, [locked] holds a directory
    that cannot be listed between two files, and [file] is not a
    directory. *)

Definition lab_tree (p : path) : node :=
  if decide (parts p = ["lab"; "clean"]%string) then Dir [("index.html"%string, File)]
  else if decide (parts p = ["lab"; "broken"]%string) then
    Dir [ ("index.html", File); ("gone.txt", File); ("later.txt", File) ]%string
  else if decide (parts p = ["lab"; "locked"]%string) then
    Dir [ ("index.html", File);
          ("private", Unlistable (OSError "/lab/locked/private"));
          ("later.txt", File) ]%string
  else if decide (parts p = ["lab"; "file"]%string) then File
  else Other.

Definition lab_open (p : string) : result (list byte) :=
  if String.eqb p "/lab/clean/index.html" then Return [x61]
  else if String.eqb p "/lab/broken/index.html" then Return [x62]
  else if String.eqb p "/lab/broken/later.txt" then Return [x63]
  else if String.eqb p "/lab/locked/index.html" then Return [x62]
  else if String.eqb p "/lab/locked/later.txt" then Return [x63]
  else Raise (OSError p).

Definition lab_host : Externals (list string) := {|
  sep := "/";
  expand_resolve := fun pathname => Path "/" ["lab"; pathname]%string;
  tree_at := lab_tree;
  open_rb := lab_open;
  guess_type := demo_guess_type;
  create_bucket := demo_create_bucket;
  paginate := demo_paginate;
  bucket_upload_file := fun _ owned => (Return tt, owned) |}.

(** Services that log the documents they are given in the provider's
    state, and an endpoint table with two regions. *)
Definition demo_services : Collaborators (list string) := {|
  path_exists := fun pathname =>
    existsb (String.eqb pathname) ["site"; "clean"; "broken"; "locked"; "file"]%string;
  get_bucket_location := fun bucket_name r =>
    if String.eqb bucket_name "site" then (Return None, r)
    else if String.eqb bucket_name "paris" then (Return (Some "eu-west-3"%string), r)
    else (Raise (ClientError "NoSuchBucket" "no such bucket"), r);
  endpoint_host := fun region =>
    if String.eqb region "us-east-1" then Return "s3-website-us-east-1.amazonaws.com"%string
    else if String.eqb region "eu-west-3" then Return "s3-website.eu-west-3.amazonaws.com"%string
    else Raise (OtherError "KeyError");
  policy_put := fun b policy r => (Return tt, ("policy " +:+ policy) :: r);
  website_put := fun b cfg r =>
    (Return tt, ("website " +:+ IndexDocument_Suffix cfg +:+ " "
                 +:+ ErrorDocument_Key cfg) :: r) |}.

(** * Properties *)

Example md5_empty : hex (MD5.md5 []) = "d41d8cd98f00b204e9800998ecf8427e"%string.
Proof. vm_compute. reflexivity. Qed.

Example md5_abc : hex (MD5.md5 [x61; x62; x63]) = "900150983cd24fb0d6963f7d28e17f72"%string.
Proof. vm_compute. reflexivity. Qed.

Example md5_70a : hex (MD5.md5 (repeat x61 70)) = "0f5c6c4e740bfcc08c3c26ccb2673d46"%string.
Proof. vm_compute. reflexivity. Qed.

Example gen_etag_bytes_a : gen_etag_bytes [x61] = Some etag_a.
Proof. vm_compute. reflexivity. Qed.

Example etag_small_chunks :
  etag_of_hashes (read_loop 4 [x61;x62;x63;x64;x65;x66;x67;x68;x69;x6a] [])
  = Some (dquote +:+ "446feba4c1b5cc7ad93bf4d44a0e36ac-3" +:+ dquote).
Proof. vm_compute. reflexivity. Qed.

(** ** Reading in chunks *)

Lemma read_take_drop (size : N) (f : list byte) :
  read size f = (take (N.to_nat size) f, drop (N.to_nat size) f).
Proof.
  revert size. induction f as [|b f IH]; intros size; simpl.
  - by rewrite take_nil, drop_nil.
  - destruct (N.eqb_spec size 0) as [->|Hne]; [done|].
    rewrite IH. replace (N.to_nat size) with (S (N.to_nat (N.pred size))) by lia.
    done.
Qed.

Lemma read_loop_step (size : N) (f : list byte) (hashes : list md5_hash) :
  read_loop size f hashes =
  match read size f with
  | ([], _) => hashes
  | (data, f') => read_loop size f' (hashes ++ [hash_data data])
  end.
Proof.
  rewrite read_loop_equation_1.
  change (read size f) with (proj1_sig (inspect (read size f))) at 2.
  generalize (inspect (read size f)).
  intros [[[|b d] f'] e]; reflexivity.
Qed.

Lemma read_exact (size : N) (c rest : list byte) :
  N.of_nat (length c) = size -> read size (c ++ rest) = (c, rest).
Proof.
  intros H. rewrite read_take_drop.
  rewrite take_app_length', drop_app_length' by lia. done.
Qed.

Lemma read_short (size : N) (c : list byte) :
  (N.of_nat (length c) <= size)%N -> read size c = (c, []).
Proof.
  intros H. rewrite read_take_drop.
  rewrite take_ge, drop_ge by lia. done.
Qed.

Lemma read_loop_nil (size : N) (hashes : list md5_hash) :
  read_loop size [] hashes = hashes.
Proof. by rewrite read_loop_step. Qed.

(** The loop appends one hash object per chunk, in order, and stops at
    the end of the stream. *)
Lemma read_loop_chunked (size : N) (cs : list (list byte)) (hashes : list md5_hash) :
  (0 < size)%N -> chunked size cs ->
  read_loop size (concat cs) hashes = hashes ++ map hash_data cs.
Proof.
  intros Hpos. revert hashes.
  induction cs as [|c cs IH]; intros hashes Hc.
  - simpl. by rewrite read_loop_nil, app_nil_r.
  - destruct cs as [|c' cs].
    + destruct Hc as [Hne Hle]. simpl. rewrite app_nil_r.
      rewrite read_loop_step, (read_short _ _ Hle).
      destruct c as [|b c]; [done|]. by rewrite read_loop_nil.
    + destruct Hc as [Hlen Hc].
      change (concat (c :: c' :: cs)) with (c ++ concat (c' :: cs)).
      rewrite read_loop_step, (read_exact _ _ _ Hlen).
      destruct c as [|b c]; [simpl in Hlen; lia|].
      rewrite (IH _ Hc). by rewrite <- app_assoc.
Qed.

Lemma reduce_concat_cons (d : list byte) (ds : list (list byte)) :
  reduce_concat (d :: ds) = concat (d :: ds).
Proof.
  simpl. revert d. induction ds as [|d' ds IH]; intros d; simpl.
  - by rewrite app_nil_r.
  - rewrite IH. simpl. by rewrite app_assoc.
Qed.

Lemma digest_hash_data (data : list byte) : digest (hash_data data) = MD5.md5 data.
Proof. reflexivity. Qed.

Lemma hexdigest_hash_data (data : list byte) :
  hexdigest (hash_data data) = hex (MD5.md5 data).
Proof. reflexivity. Qed.

Lemma map_digest_hash_data (cs : list (list byte)) :
  map digest (map hash_data cs) = map MD5.md5 cs.
Proof. rewrite map_map. apply map_ext. intros c. apply digest_hash_data. Qed.

(** The fingerprint of a stream cut into chunks, by the number of chunks. *)
Lemma etag_of_chunks (cs : list (list byte)) :
  etag_of_hashes (map hash_data cs) =
  match cs with
  | [] => None
  | [c] => Some (dquote +:+ hex (MD5.md5 c) +:+ dquote)
  | _ => Some (dquote +:+ hex (MD5.md5 (concat (map MD5.md5 cs))) +:+ "-"
                 +:+ str_of_nat (length cs) +:+ dquote)
  end.
Proof.
  destruct cs as [|c [|c' cs]]; [done..|].
  unfold etag_of_hashes.
  change (map hash_data (c :: c' :: cs))
    with (hash_data c :: hash_data c' :: map hash_data cs).
  cbv beta iota zeta.
  change (hash_data c :: hash_data c' :: map hash_data cs)
    with (map hash_data (c :: c' :: cs)).
  rewrite map_digest_hash_data, length_map, hexdigest_hash_data.
  change (map MD5.md5 (c :: c' :: cs)) with (MD5.md5 c :: map MD5.md5 (c' :: cs)).
  by rewrite reduce_concat_cons.
Qed.

Lemma gen_etag_bytes_chunked (size : N) (cs : list (list byte)) :
  (0 < size)%N -> chunked size cs ->
  etag_of_hashes (read_loop size (concat cs) []) = etag_of_hashes (map hash_data cs).
Proof. intros Hpos Hc. by rewrite read_loop_chunked. Qed.

(** A stream of [k] times [n] bytes is cut into [k] chunks of [n] bytes. *)
Lemma split_multiple (n k : nat) (content : list byte) :
  (0 < n)%nat -> length content = (k * n)%nat ->
  exists cs, concat cs = content /\ chunked (N.of_nat n) cs /\ length cs = k
             /\ Forall (fun c => length c = n) cs.
Proof.
  intros Hn. revert content. induction k as [|k IH]; intros content Hlen.
  - exists []. destruct content; [done | simpl in Hlen; lia].
  - destruct (IH (drop n content)) as (cs & Hcat & Hch & Hk & Hall).
    { rewrite length_drop. lia. }
    assert (Ht : length (take n content) = n) by (rewrite length_take; lia).
    exists (take n content :: cs). repeat split.
    + simpl. rewrite Hcat. apply take_drop.
    + simpl. destruct cs as [|c cs].
      * split; [|lia]. intros E. rewrite E in Ht. simpl in Ht. lia.
      * split; [lia | exact Hch].
    + simpl. by rewrite Hk.
    + by constructor.
Qed.

Lemma etag_two_chunks (c1 c2 : list byte) :
  etag_of_hashes (map hash_data [c1; c2]) =
  Some (dquote +:+ hex (MD5.md5 (MD5.md5 c1 ++ MD5.md5 c2)) +:+ "-2" +:+ dquote).
Proof.
  rewrite etag_of_chunks.
  change (concat (map MD5.md5 [c1; c2])) with (MD5.md5 c1 ++ MD5.md5 c2 ++ []).
  rewrite app_nil_r. reflexivity.
Qed.

Lemma repeat_double (b : byte) (n : N) :
  repeat b (N.to_nat (2 * n)) = concat [repeat b (N.to_nat n); repeat b (N.to_nat n)].
Proof.
  simpl concat. rewrite app_nil_r, <- repeat_app. f_equal. lia.
Qed.

Lemma chunked_two_full (size : N) (c1 c2 : list byte) :
  (0 < size)%N -> N.of_nat (length c1) = size -> N.of_nat (length c2) = size ->
  chunked size [c1; c2].
Proof.
  intros Hpos H1 H2. simpl. split; [done|]. split; [|lia].
  intros ->. simpl in H2. lia.
Qed.

(** ** The fingerprint of a file *)

Section Fingerprint.
Context {remote : Type} {ext : Externals remote}.

Lemma gen_etag_content (path : string) (content : list byte) (st : state remote) :
  open_rb path = Return content ->
  gen_etag path st = (Return (gen_etag_bytes content), st).
Proof. intros H. unfold gen_etag, bind, lift, ret. by rewrite H. Qed.

Lemma gen_etag_raises (path : string) (e : exn) (st : state remote) :
  open_rb path = Raise e -> gen_etag path st = (Raise e, st).
Proof. intros H. unfold gen_etag, bind, lift. by rewrite H. Qed.

(** C1. A file whose content is cut into [n > 1] chunks of at most
    [CHUNK_SIZE] bytes (all full but the last) gets the fingerprint made
    of a double quote, the hex md5 of the concatenated binary md5
    digests of the chunks in order, a dash, [n] in decimal and a closing
    double quote; the state is left as it was. *)
Theorem gen_etag_multipart (path : string) (st : state remote)
    (cs : list (list byte)) :
  open_rb path = Return (concat cs) ->
  chunked CHUNK_SIZE cs ->
  (1 < length cs)%nat ->
  gen_etag path st =
    (Return (Some (dquote +:+ hex (MD5.md5 (concat (map MD5.md5 cs))) +:+ "-"
                     +:+ str_of_nat (length cs) +:+ dquote)), st).
Proof.
  intros Hopen Hc Hn. rewrite (gen_etag_content _ _ _ Hopen).
  unfold gen_etag_bytes. rewrite gen_etag_bytes_chunked by done.
  rewrite etag_of_chunks.
  destruct cs as [|c [|c' cs]]; [simpl in Hn; lia .. | done].
Qed.

End Fingerprint.

Lemma big_chunk_length : N.of_nat (length big_chunk) = CHUNK_SIZE.
Proof. unfold big_chunk. rewrite repeat_length. apply N2Nat.id. Qed.

Lemma gen_etag_multipart_witness :
  gen_etag (ext := posix_host) "/srv/big.bin" (new_manager []) =
    (Return (Some (dquote
                   +:+ hex (MD5.md5 (concat (map MD5.md5 [big_chunk; [x61]])))
                   +:+ "-" +:+ str_of_nat (length [big_chunk; [x61]]) +:+ dquote)),
     new_manager []).
Proof.
  apply (gen_etag_multipart (ext := posix_host) "/srv/big.bin" (new_manager [])
           [big_chunk; [x61]]).
  - reflexivity.
  - split; [apply big_chunk_length|].
    split; [discriminate | unfold CHUNK_SIZE; simpl; lia].
  - simpl. lia.
Defined.

Lemma CHUNK_SIZE_pos : (0 < CHUNK_SIZE)%N.
Proof. reflexivity. Qed.

Lemma split_multiple_N (size k : N) (content : list byte) :
  (0 < size)%N -> (0 < k)%N ->
  N.of_nat (length content) = (k * size)%N ->
  exists cs, concat cs = content /\ chunked size cs /\ length cs = N.to_nat k
             /\ Forall (fun c => N.of_nat (length (fed (hash_data c))) = size) cs.
Proof.
  intros Hs Hk Hlen.
  destruct (split_multiple (N.to_nat size) (N.to_nat k) content)
    as (cs & Hcat & Hch & Hn & Hall);
    [lia | by rewrite <- N2Nat.inj_mul, <- Hlen, Nat2N.id |].
  rewrite N2Nat.id in Hch. exists cs. repeat split; try done.
  eapply Forall_impl; [exact Hall|].
  intros c Hc. change (fed (hash_data c)) with c. rewrite Hc. apply N2Nat.id.
Qed.

Lemma two_big_chunks :
  repeat x00 (N.to_nat (2 * CHUNK_SIZE)) = concat [big_chunk; big_chunk].
Proof. exact (repeat_double x00 CHUNK_SIZE). Qed.

Section SingleChunk.
Context {remote : Type} {ext : Externals remote}.

(** C2. A non-empty file of at most [CHUNK_SIZE] bytes is read as one
    chunk and its fingerprint is the quoted hex md5 of the whole
    content, with no part count; for the one-byte file [a] this is the
    quoted [0cc175b9c0f1b6a831c399e269772661]. A file of [k] times
    [CHUNK_SIZE] bytes, [k] positive, gives exactly [k] hash objects,
    each fed [CHUNK_SIZE] bytes: no empty chunk is appended at the end
    of the stream. Twice [CHUNK_SIZE] zero bytes give a fingerprint that
    ends in [-2] and the closing quote. *)
Theorem gen_etag_single_chunk_and_multiples :
  (forall (path : string) (st : state remote) (content : list byte),
      open_rb path = Return content ->
      content <> [] ->
      (N.of_nat (length content) <= CHUNK_SIZE)%N ->
      read_loop CHUNK_SIZE content [] = [hash_data content] /\
      gen_etag path st =
        (Return (Some (dquote +:+ hex (MD5.md5 content) +:+ dquote)), st))
  /\ (forall (path : string) (st : state remote),
        open_rb path = Return [x61] ->
        gen_etag path st =
          (Return (Some (dquote +:+ "0cc175b9c0f1b6a831c399e269772661" +:+ dquote)),
           st))
  /\ (forall (content : list byte) (k : N),
        (0 < k)%N ->
        N.of_nat (length content) = (k * CHUNK_SIZE)%N ->
        length (read_loop CHUNK_SIZE content []) = N.to_nat k /\
        Forall (fun h => N.of_nat (length (fed h)) = CHUNK_SIZE)
               (read_loop CHUNK_SIZE content []))
  /\ (forall (path : string) (st : state remote),
        open_rb path = Return (repeat x00 (N.to_nat (2 * CHUNK_SIZE))) ->
        gen_etag path st =
          (Return (Some (dquote
                         +:+ hex (MD5.md5 (MD5.md5 big_chunk ++ MD5.md5 big_chunk))
                         +:+ "-2" +:+ dquote)), st)).
Proof.
  repeat split.
  - pose proof (read_loop_chunked CHUNK_SIZE [content] [] CHUNK_SIZE_pos) as E.
    simpl concat in E. rewrite app_nil_r in E. apply E. split; assumption.
  - rewrite (gen_etag_content _ _ _ H). unfold gen_etag_bytes.
    pose proof (gen_etag_bytes_chunked CHUNK_SIZE [content] CHUNK_SIZE_pos) as E.
    simpl concat in E. rewrite app_nil_r in E. rewrite E by (split; assumption).
    rewrite etag_of_chunks. reflexivity.
  - intros path st Hopen. rewrite (gen_etag_content _ _ _ Hopen).
    apply (f_equal (fun e => (Return e, st))). vm_compute. reflexivity.
  - destruct (split_multiple_N CHUNK_SIZE k content CHUNK_SIZE_pos H H0)
      as (cs & <- & Hch & Hk & _).
    rewrite (read_loop_chunked _ _ _ CHUNK_SIZE_pos Hch).
    rewrite app_nil_l. by rewrite length_map.
  - destruct (split_multiple_N CHUNK_SIZE k content CHUNK_SIZE_pos H H0)
      as (cs & <- & Hch & _ & Hall).
    rewrite (read_loop_chunked _ _ _ CHUNK_SIZE_pos Hch).
    rewrite app_nil_l. apply Forall_map. exact Hall.
  - intros path st Hopen. rewrite (gen_etag_content _ _ _ Hopen).
    unfold gen_etag_bytes. rewrite two_big_chunks.
    rewrite (gen_etag_bytes_chunked CHUNK_SIZE [big_chunk; big_chunk] CHUNK_SIZE_pos)
      by (apply chunked_two_full;
          [exact CHUNK_SIZE_pos | apply big_chunk_length ..]).
    rewrite (etag_two_chunks big_chunk big_chunk). reflexivity.
Qed.

End SingleChunk.

Lemma gen_etag_single_chunk_and_multiples_witness :
  read_loop CHUNK_SIZE [x62; x0a] [] = [hash_data [x62; x0a]] /\
  gen_etag (ext := posix_host) "/srv/site/sub/dir/a.txt" (new_manager []) =
    (Return (Some (dquote +:+ hex (MD5.md5 [x62; x0a]) +:+ dquote)), new_manager []).
Proof.
  apply (proj1 (gen_etag_single_chunk_and_multiples (ext := posix_host))
           "/srv/site/sub/dir/a.txt" (new_manager []) [x62; x0a]).
  - reflexivity.
  - discriminate.
  - unfold CHUNK_SIZE. simpl. lia.
Defined.

(** ** The decision of [upload_file] *)

Lemma dquote_app (s : string) : dquote +:+ s = String "034"%char s.
Proof. reflexivity. Qed.

(** A fingerprint is never the empty string: it starts with a quote. *)
Lemma etag_of_hashes_quoted (hashes : list md5_hash) (e : string) :
  etag_of_hashes hashes = Some e -> exists rest, e = String "034"%char rest.
Proof.
  unfold etag_of_hashes. destruct hashes as [|h [|h' hs]]; intros H.
  - discriminate.
  - injection H as <-. rewrite dquote_app. eauto.
  - injection H as <-. rewrite dquote_app. eauto.
Qed.

Lemma py_eq_default_spec (m : gmap string string) (key : string) (etag : option string) :
  (forall e, etag = Some e -> e <> EmptyString) ->
  py_eq (default EmptyString (m !! key)) etag = true <->
  exists e, etag = Some e /\ m !! key = Some e.
Proof.
  intros Hne. unfold py_eq. destruct etag as [e|].
  - rewrite String.eqb_eq. split.
    + intros H. exists e. split; [done|].
      destruct (m !! key) as [v|]; simpl in H; [by subst|].
      exfalso. by apply (Hne e).
    + intros (e' & [= <-] & ->). done.
  - split; [done|]. intros (e & H & _). discriminate.
Qed.

Section UploadFile.
Context {remote : Type} {ext : Externals remote}.

Lemma upload_file_run (b : bucket) (path key : string) (st : state remote)
    (content : list byte) :
  open_rb path = Return content ->
  upload_file b path key st =
    if py_eq (default EmptyString (manifest st !! key)) (gen_etag_bytes content)
    then (Return tt, st)
    else call_upload_file (the_upload b path key) st.
Proof.
  intros Hopen. unfold upload_file, bind.
  rewrite (gen_etag_content _ _ _ Hopen). reflexivity.
Qed.

Lemma upload_file_unreadable (b : bucket) (path key : string) (st : state remote)
    (e : exn) :
  open_rb path = Raise e -> upload_file b path key st = (Raise e, st).
Proof.
  intros Hopen. unfold upload_file, bind.
  by rewrite (gen_etag_raises _ _ _ Hopen).
Qed.

Lemma call_upload_file_log (c : upload_call) (st : state remote) :
  uploads (snd (call_upload_file c st)) = uploads st ++ [c] /\
  manifest (snd (call_upload_file c st)) = manifest st.
Proof.
  unfold call_upload_file. by destruct (bucket_upload_file c (s3 st)).
Qed.

Lemma gen_etag_bytes_nonempty (content : list byte) (e : string) :
  gen_etag_bytes content = Some e -> e <> EmptyString.
Proof.
  intros H. destruct (etag_of_hashes_quoted _ _ H) as [rest ->]. discriminate.
Qed.

(** C3. A readable file is skipped, that is [upload_file] returns without
    error and without a call of [bucket.upload_file], exactly when the
    manifest holds for the key a string equal to the fingerprint computed
    from the file. When the key is absent, or the stored string differs
    from the fingerprint, the file is uploaded: one call is made, for this
    path and key. *)
Theorem upload_file_skips_iff_equal (b : bucket) (path key : string)
    (st : state remote) (content : list byte) :
  open_rb path = Return content ->
  let out := upload_file b path key st in
  ((fst out = Return tt /\ uploads (snd out) = uploads st) <->
   (exists e, gen_etag_bytes content = Some e /\ manifest st !! key = Some e))
  /\ ((manifest st !! key = None \/
       manifest st !! key <> gen_etag_bytes content) ->
      out = call_upload_file (the_upload b path key) st /\
      uploads (snd out) = uploads st ++ [the_upload b path key]).
Proof.
  intros Hopen out. subst out. rewrite (upload_file_run _ _ _ _ _ Hopen).
  pose proof (py_eq_default_spec (manifest st) key (gen_etag_bytes content)
                (gen_etag_bytes_nonempty content)) as Hspec.
  destruct (py_eq _ _) eqn:E.
  - destruct (proj1 Hspec eq_refl) as (e & He1 & He2). split; [split; [intros _; eauto | intros _; split; reflexivity] |].
    intros [Habs|Hdiff]; congruence.
  - assert (Hno : ~ exists e, gen_etag_bytes content = Some e /\
                              manifest st !! key = Some e).
    { intros He. apply Hspec in He. discriminate. }
    pose proof (call_upload_file_log (the_upload b path key) st) as [Hlog _].
    split; [split|]; [| done | done].
    intros [_ Hsame]. rewrite Hlog in Hsame.
    apply (f_equal length) in Hsame. rewrite length_app in Hsame.
    simpl in Hsame. lia.
Qed.

(** C4. The empty file has no fingerprint: [gen_etag] returns [None], and
    [upload_file] uploads the file whatever the manifest holds. *)
Theorem empty_file_always_uploaded (b : bucket) (path key : string)
    (st : state remote) :
  open_rb path = Return [] ->
  gen_etag path st = (Return None, st) /\
  upload_file b path key st = call_upload_file (the_upload b path key) st /\
  uploads (snd (upload_file b path key st)) = uploads st ++ [the_upload b path key].
Proof.
  intros Hopen.
  assert (Hnone : gen_etag_bytes [] = None).
  { unfold gen_etag_bytes. by rewrite read_loop_nil. }
  split; [|split].
  - rewrite (gen_etag_content _ _ _ Hopen). by rewrite Hnone.
  - rewrite (upload_file_run _ _ _ _ _ Hopen), Hnone. reflexivity.
  - rewrite (upload_file_run _ _ _ _ _ Hopen), Hnone.
    apply call_upload_file_log.
Qed.

(** C10. When the fingerprint computed from the file equals the manifest
    entry of its key, [upload_file] returns and the state is the one it
    started in: same manifest, same provider state, no call made. *)
Theorem upload_file_skip_is_noop (b : bucket) (path key : string)
    (st : state remote) (content : list byte) (e : string) :
  open_rb path = Return content ->
  gen_etag_bytes content = Some e ->
  manifest st !! key = Some e ->
  upload_file b path key st = (Return tt, st).
Proof.
  intros Hopen He Hm. rewrite (upload_file_run _ _ _ _ _ Hopen).
  rewrite He, Hm. simpl. by rewrite String.eqb_refl.
Qed.

(** C9. A readable file whose fingerprint the manifest does not hold
    under its key is uploaded, and the call carries the content type
    that [mimetypes] guesses from the destination key, and [text/html]
    when it guesses none (or an empty one); neither the path nor the
    content is consulted for it. In every case, whatever [upload_file]
    adds to the calls is that one call. *)
Theorem upload_content_type (b : bucket) (path key : string) (st : state remote) :
  let content_type :=
    match fst (guess_type key) with
    | Some t => if decide (t = EmptyString) then "text/html"%string else t
    | None => "text/html"%string
    end in
  let c := UploadCall b path key content_type transfer_config in
  (forall content,
      open_rb path = Return content ->
      manifest st !! key = None \/ manifest st !! key <> gen_etag_bytes content ->
      uploads (snd (upload_file b path key st)) = uploads st ++ [c])
  /\ (uploads (snd (upload_file b path key st)) = uploads st \/
      uploads (snd (upload_file b path key st)) = uploads st ++ [c]).
Proof.
  intros content_type c.
  assert (Hc : the_upload b path key = c).
  { subst c content_type. unfold the_upload, py_or. f_equal.
    destruct (fst (guess_type key)) as [[|a t]|]; done. }
  split.
  - intros content Hopen Hdiff. rewrite (upload_file_run _ _ _ _ _ Hopen).
    destruct (py_eq _ _) eqn:E.
    + exfalso.
      apply (py_eq_default_spec (manifest st) key (gen_etag_bytes content)
               (gen_etag_bytes_nonempty content)) in E as (e & He & Hm).
      destruct Hdiff as [Hnone|Hne]; congruence.
    + rewrite <- Hc. apply call_upload_file_log.
  - destruct (open_rb path) as [content|e] eqn:Hopen.
    + rewrite (upload_file_run _ _ _ _ _ Hopen).
      destruct (py_eq _ _); [by left|]. right.
      rewrite <- Hc. apply call_upload_file_log.
    + left. by rewrite (upload_file_unreadable _ _ _ _ _ Hopen).
Qed.

End UploadFile.

Lemma upload_file_skips_iff_equal_witness :
  let out := upload_file (ext := posix_host) (Bucket "site")
               "/srv/site/index.html" "index.html" demo_state in
  ((fst out = Return tt /\ uploads (snd out) = uploads demo_state) <->
   (exists e, gen_etag_bytes [x61] = Some e /\
              manifest demo_state !! "index.html"%string = Some e))
  /\ ((manifest demo_state !! "index.html"%string = None \/
       manifest demo_state !! "index.html"%string <> gen_etag_bytes [x61]) ->
      out = call_upload_file (ext := posix_host)
              (the_upload (ext := posix_host) (Bucket "site")
                 "/srv/site/index.html" "index.html") demo_state /\
      uploads (snd out) =
        uploads demo_state ++ [the_upload (ext := posix_host) (Bucket "site")
                                 "/srv/site/index.html" "index.html"]).
Proof.
  apply (upload_file_skips_iff_equal (ext := posix_host) (Bucket "site")
           "/srv/site/index.html" "index.html" demo_state [x61]).
  reflexivity.
Defined.

(** The comparison is exact: a stored fingerprint that differs from the
    computed one only in the case of its hex digits does not match. *)
Example upload_file_case_sensitive :
  uploads (snd (upload_file (ext := posix_host) (Bucket "site")
                  "/srv/site/index.html" "index.html"
                  (State {[ "index.html"%string :=
                              dquote +:+ "0CC175B9C0F1B6A831C399E269772661" +:+ dquote ]}
                         [] [])))
  = [the_upload (ext := posix_host) (Bucket "site")
       "/srv/site/index.html" "index.html"].
Proof. vm_compute. reflexivity. Qed.

Lemma empty_file_always_uploaded_witness :
  gen_etag (ext := posix_host) "/srv/empty.dat" demo_state = (Return None, demo_state) /\
  upload_file (ext := posix_host) (Bucket "site") "/srv/empty.dat" "index.html" demo_state
  = call_upload_file (ext := posix_host)
      (the_upload (ext := posix_host) (Bucket "site") "/srv/empty.dat" "index.html")
      demo_state /\
  uploads (snd (upload_file (ext := posix_host) (Bucket "site")
                  "/srv/empty.dat" "index.html" demo_state))
  = uploads demo_state ++ [the_upload (ext := posix_host) (Bucket "site")
                             "/srv/empty.dat" "index.html"].
Proof.
  apply (empty_file_always_uploaded (ext := posix_host) (Bucket "site")
           "/srv/empty.dat" "index.html" demo_state).
  reflexivity.
Defined.

Lemma upload_content_type_witness :
  uploads (snd (upload_file (ext := posix_host) (Bucket "site")
                  "/srv/site/sub/dir/a.txt" "sub/dir/a.txt" demo_state))
  = uploads demo_state
    ++ [UploadCall (Bucket "site") "/srv/site/sub/dir/a.txt" "sub/dir/a.txt"
          "text/plain" transfer_config].
Proof.
  apply (proj1 (upload_content_type (ext := posix_host) (Bucket "site")
                  "/srv/site/sub/dir/a.txt" "sub/dir/a.txt" demo_state)
           [x62; x0a]).
  - reflexivity.
  - left. reflexivity.
Defined.

(** A key without a known extension is sent as [text/html]. *)
Example upload_content_type_default :
  uploads (snd (upload_file (ext := posix_host) (Bucket "site")
                  "/srv/empty.dat" "empty.dat" demo_state))
  = [UploadCall (Bucket "site") "/srv/empty.dat" "empty.dat" "text/html"
       transfer_config].
Proof. vm_compute. reflexivity. Qed.

Lemma upload_file_skip_is_noop_witness :
  upload_file (ext := posix_host) (Bucket "site")
    "/srv/site/index.html" "index.html" demo_state = (Return tt, demo_state).
Proof.
  apply (upload_file_skip_is_noop (ext := posix_host) (Bucket "site")
           "/srv/site/index.html" "index.html" demo_state [x61] etag_a).
  - reflexivity.
  - vm_compute. reflexivity.
  - vm_compute. reflexivity.
Defined.

(** ** Loading the manifest *)

Lemma fold_load_pages (pages : list page) (m : gmap string string) :
  fold_left load_page pages m = fold_left load_object (listed pages) m.
Proof.
  revert m. induction pages as [|pg pages IH]; intros m; [done|].
  unfold listed. simpl. rewrite fold_left_app. apply IH.
Qed.

Lemma fold_load_object_other (objs : list s3_object) (m : gmap string string)
    (k : string) :
  ~ In k (map Key objs) -> fold_left load_object objs m !! k = m !! k.
Proof.
  revert m. induction objs as [|o objs IH]; intros m Hk; [done|].
  simpl in *. rewrite IH by tauto.
  unfold load_object. apply lookup_insert_ne. tauto.
Qed.

Lemma fold_load_object_listed (objs : list s3_object) (m : gmap string string)
    (o : s3_object) :
  In o objs -> exists o', In o' objs /\ Key o' = Key o /\
                          fold_left load_object objs m !! Key o = Some (ETag o').
Proof.
  revert m o. induction objs as [|o1 objs IH]; intros m o Hin; [done|].
  simpl. destruct (in_dec string_dec (Key o) (map Key objs)) as [Hk|Hk].
  - apply in_map_iff in Hk as (o2 & Hkey & Hin2).
    destruct (IH (load_object m o1) o2 Hin2) as (o' & Hin' & Hkey' & Hl).
    exists o'. split; [by right|]. split; [congruence|].
    by rewrite <- Hkey.
  - destruct Hin as [->|Hin].
    + exists o. split; [by left|]. split; [done|].
      rewrite fold_load_object_other by done.
      unfold load_object. apply lookup_insert_eq.
    + exfalso. apply Hk. by apply in_map.
Qed.

Lemma in_listed (pages : list page) (pg : page) (o : s3_object) :
  In pg pages -> In o (default [] (Contents pg)) -> In o (listed pages).
Proof. intros Hpg Ho. unfold listed. apply in_flat_map. eauto. Qed.

Section Manifest.
Context {remote : Type} {ext : Externals remote}.

Lemma load_manifest_run (b : bucket) (st : state remote) :
  snd (load_manifest b st) =
    State (fold_left load_page (fst (paginate (name b) (s3 st))) (manifest st))
          (s3 st) (uploads st).
Proof.
  unfold load_manifest. destruct (paginate (name b) (s3 st)) as [pages [e|]]; done.
Qed.

(** C5. When the paginator delivers all its pages, [load_manifest]
    returns and every key found on any page is in the manifest, bound to
    a fingerprint the listing gives for that key; when the listing gives
    each key one fingerprint only (keys are unique in a bucket), every
    pair of key and fingerprint of every page is an entry of the
    manifest. *)
Theorem load_manifest_complete (b : bucket) (st : state remote) (pages : list page) :
  paginate (name b) (s3 st) = (pages, None) ->
  fst (load_manifest b st) = Return tt /\
  (forall pg o, In pg pages -> In o (default [] (Contents pg)) ->
     exists o', In o' (listed pages) /\ Key o' = Key o /\
                manifest (snd (load_manifest b st)) !! Key o = Some (ETag o')) /\
  (single_valued (listed pages) ->
   forall pg o, In pg pages -> In o (default [] (Contents pg)) ->
     manifest (snd (load_manifest b st)) !! Key o = Some (ETag o)).
Proof.
  intros Hpages. rewrite load_manifest_run. unfold load_manifest.
  rewrite Hpages. simpl. rewrite fold_load_pages.
  split; [done|]. split.
  - intros pg o Hpg Ho.
    apply fold_load_object_listed. by eapply in_listed.
  - intros Hsv pg o Hpg Ho.
    pose proof (in_listed _ _ _ Hpg Ho) as Hin.
    destruct (fold_load_object_listed _ (manifest st) _ Hin) as (o' & Hin' & Hk & ->).
    f_equal. by apply Hsv.
Qed.

End Manifest.

Lemma demo_pages_single_valued : single_valued (listed demo_pages).
Proof.
  intros o1 o2 H1 H2. simpl in H1, H2.
  repeat (destruct H1 as [<-|H1]); try done;
    repeat (destruct H2 as [<-|H2]); try done; simpl; intros; congruence.
Qed.

Lemma load_manifest_complete_witness :
  fst (load_manifest (ext := posix_host) (Bucket "site") (new_manager [])) = Return tt /\
  (forall pg o, In pg demo_pages -> In o (default [] (Contents pg)) ->
     exists o', In o' (listed demo_pages) /\ Key o' = Key o /\
                manifest (snd (load_manifest (ext := posix_host) (Bucket "site")
                                 (new_manager []))) !! Key o = Some (ETag o')) /\
  (single_valued (listed demo_pages) ->
   forall pg o, In pg demo_pages -> In o (default [] (Contents pg)) ->
     manifest (snd (load_manifest (ext := posix_host) (Bucket "site")
                      (new_manager []))) !! Key o = Some (ETag o)).
Proof.
  apply (load_manifest_complete (ext := posix_host) (Bucket "site")
           (new_manager []) demo_pages).
  reflexivity.
Defined.

(** Three pages of two keys each give a manifest of six entries. *)
Example load_manifest_three_pages :
  size (manifest (snd (load_manifest (ext := posix_host) (Bucket "site")
                         (new_manager [])))) = 6%nat /\
  map (fun k => manifest (snd (load_manifest (ext := posix_host) (Bucket "site")
                                 (new_manager []))) !! k)
      ["index.html"; "k2"; "k3"; "k4"; "k5"; "k6"; "k7"]%string
  = [Some etag_a; Some "e2"; Some "e3"; Some "e4"; Some "e5"; Some "e6"; None]%string.
Proof. split; vm_compute; reflexivity. Qed.

(** ** The walk of [sync] *)

Lemma node_Forall_ind (P : node -> Prop) :
  P File -> P Other -> (forall e, P (Unlistable e)) ->
  (forall es, Forall (fun e => P (snd e)) es -> P (Dir es)) ->
  forall n, P n.
Proof.
  intros HF HO HU HD. fix IH 1. intros [|es| |e]; [exact HF | | exact HO | apply HU].
  apply HD. induction es as [|[nm c] es IHes]; constructor;
    [apply IH | exact IHes].
Qed.

Lemma files_in_nonempty (n : node) (rel : list string) :
  In rel (files_in n) -> rel <> [].
Proof.
  revert rel. induction n as [| | |es IH] using node_Forall_ind; intros rel; [done..|].
  simpl. induction IH as [|[nm c] es Hc _ IHes]; [done|].
  rewrite !in_app_iff, in_map_iff.
  intros [(r & <- & _)|[H|H]]; [done| |by apply IHes].
  destruct (is_file c); [|done]. by destruct H as [<-|[]].
Qed.

Lemma omap_walk_file_below (nm : string) (l : list (list string + exn)) :
  omap walk_file (map (below nm) l) = map (cons nm) (omap walk_file l).
Proof.
  induction l as [|[rel|e] l IH]; [done| |]; csimpl; by rewrite ?IH.
Qed.

(** The files of the walk are the regular files below the directory. *)
Lemma walk_files (n : node) : omap walk_file (walk n) = files_in n.
Proof.
  induction n as [| | |es IH] using node_Forall_ind; [done..|].
  simpl. induction IH as [|[nm c] es Hc _ IHes]; [done|].
  rewrite !omap_app, omap_walk_file_below. cbn [snd] in Hc. rewrite Hc, IHes.
  by destruct (is_file c).
Qed.

(** In a tree whose directories can all be listed, the walk meets the
    regular files and nothing else. *)
Lemma walk_listable (n : node) :
  listable n = true -> walk n = map inl (files_in n).
Proof.
  induction n as [| | |es IH] using node_Forall_ind; [done..|].
  simpl. induction IH as [|[nm c] es Hc _ IHes]; [done|].
  intros [Hl Hles]%andb_prop. cbn [snd] in Hc.
  rewrite (Hc Hl), (IHes Hles), !map_app, !map_map.
  by destruct (is_file c).
Qed.

Lemma strip_prefix_app (pre rest : list string) :
  strip_prefix pre (pre ++ rest) = Some rest.
Proof.
  induction pre as [|x pre IH]; [done|]. simpl.
  destruct (decide (x = x)); [exact IH | done].
Qed.

Section Monad.
Context {remote : Type}.

Lemma bind_ret_l {A B} (a : A) (k : A -> M remote B) (st : state remote) :
  bind (ret a) k st = k a st.
Proof. reflexivity. Qed.

Lemma bind_ret_unit (m : M remote unit) (st : state remote) :
  bind m (fun _ => ret tt) st = m st.
Proof. unfold bind, ret. by destruct (m st) as [[[]|e] st']. Qed.

Lemma bind_assoc {A B C} (m : M remote A) (k : A -> M remote B)
    (h : B -> M remote C) (st : state remote) :
  bind (bind m k) h st = bind m (fun a => bind (k a) h) st.
Proof. unfold bind. by destruct (m st) as [[a|e] st']. Qed.

Lemma bind_ext {A B} (m m' : M remote A) (k k' : A -> M remote B)
    (st : state remote) :
  m st = m' st -> (forall a st', k a st' = k' a st') ->
  bind m k st = bind m' k' st.
Proof.
  intros Hm Hk. unfold bind. rewrite Hm.
  by destruct (m' st) as [[a|e] st'].
Qed.

Lemma for_each_app {A} (l1 l2 : list A) (body : A -> M remote unit)
    (st : state remote) :
  for_each (l1 ++ l2) body st =
  bind (for_each l1 body) (fun _ => for_each l2 body) st.
Proof.
  revert st. induction l1 as [|x l1 IH]; intros st; [done|].
  simpl. rewrite bind_assoc. apply bind_ext; [done|]. intros _ st'. apply IH.
Qed.

Lemma for_each_map {A B} (g : A -> B) (l : list A) (body : B -> M remote unit)
    (st : state remote) :
  for_each (map g l) body st = for_each l (fun x => body (g x)) st.
Proof.
  revert st. induction l as [|x l IH]; intros st; [done|].
  simpl. apply bind_ext; [done|]. intros _ st'. apply IH.
Qed.

Lemma for_each_ext {A} (l : list A) (body body' : A -> M remote unit)
    (st : state remote) :
  (forall x st', In x l -> body x st' = body' x st') ->
  for_each l body st = for_each l body' st.
Proof.
  revert st. induction l as [|x l IH]; intros st H; [done|].
  simpl. apply bind_ext; [apply H; by left|].
  intros _ st'. apply IH. intros y st'' Hy. apply H. by right.
Qed.

(** A loop whose body keeps a projection of the state keeps it. *)
Lemma for_each_preserves {A T} (proj : state remote -> T) (l : list A)
    (body : A -> M remote unit) (st : state remote) :
  (forall x st', proj (snd (body x st')) = proj st') ->
  proj (snd (for_each l body st)) = proj st.
Proof.
  intros H. revert st. induction l as [|x l IH]; intros st; [done|].
  simpl. unfold bind. specialize (H x st).
  destruct (body x st) as [[[]|e] st']; simpl in *; [by rewrite IH | done].
Qed.

End Monad.

Section Walk.
Context {remote : Type} {ext : Externals remote}.

Lemma str_path_parts (a : string) (x : string) (ps : list string) :
  str_path (Path a (x :: ps)) = a +:+ join sep (x :: ps).
Proof. unfold str_path. simpl. by destruct a. Qed.

Lemma relative_to_below (root : path) (rel : list string) :
  relative_to (Path (anchor root) (parts root ++ rel)) root
  = Return (Path EmptyString rel).
Proof.
  unfold relative_to. simpl.
  destruct (decide (anchor root = anchor root)); [|done].
  by rewrite strip_prefix_app.
Qed.

Lemma handle_directory_visits (b : bucket) (root : path) (n : node) :
  forall (pre : list string) (st : state remote),
    is_dir n = true ->
    handle_directory b root (Path (anchor root) (parts root ++ pre)) n st
    = for_each (walk n) (visit_step b root pre) st.
Proof.
  induction n as [| |e|es IH] using node_Forall_ind; intros pre st Hdir; [done..| |].
  { simpl. unfold bind, raise. reflexivity. }
  clear Hdir. simpl. revert st.
  induction IH as [|[nm c] es Hc _ IHes]; intros st; [done|].
  simpl. rewrite for_each_app.
  assert (Hvisit : forall ev st', visit_step b root pre (below nm ev) st'
                                  = visit_step b root (pre ++ [nm]) ev st').
  { intros [rel|e] st'; [|done]. unfold visit_step, below, visit.
    by rewrite <- !app_assoc. }
  apply bind_ext;
    [|intros _ st1; rewrite for_each_app; apply bind_ext; [|intros _ st2; apply IHes]].
  - rewrite for_each_map. cbn [snd] in Hc.
    assert (Hsub : handle_directory b root
                     (joinpath (Path (anchor root) (parts root ++ pre)) nm) c st
                   = handle_directory b root
                       (Path (anchor root) (parts root ++ pre ++ [nm])) c st).
    { unfold joinpath. cbn [anchor parts]. by rewrite <- app_assoc. }
    destruct c as [|es'| |e]; [done| | done |].
    + cbn [is_dir]. rewrite Hsub, (Hc (pre ++ [nm]) st eq_refl).
      apply for_each_ext. intros ev st' _. by rewrite Hvisit.
    + cbn [is_dir]. rewrite Hsub, (Hc (pre ++ [nm]) st eq_refl).
      apply for_each_ext. intros ev st' _. by rewrite Hvisit.
  - destruct c as [|es'| |e]; [|done..].
    unfold joinpath. cbn [is_file anchor parts for_each]. rewrite bind_ret_unit.
    rewrite <- app_assoc.
    unfold bind at 1, lift. rewrite relative_to_below. reflexivity.
Qed.

Lemma visit_sync_file (b : bucket) (root : path) (rel : list string)
    (st : state remote) :
  rel <> [] -> visit b root [] rel st = sync_file b root rel st.
Proof.
  intros Hrel. unfold visit, sync_file. destruct rel as [|x rel]; [done|].
  simpl app. rewrite str_path_parts.
  destruct (parts root ++ x :: rel) as [|y ps] eqn:E.
  - by destruct (parts root).
  - by rewrite str_path_parts.
Qed.

Lemma in_walk_files (n : node) (rel : list string) :
  In (inl rel) (walk n) -> In rel (files_in n).
Proof.
  intros Hin. rewrite <- walk_files. apply list_elem_of_In.
  apply list_elem_of_omap. exists (inl rel). split; [|done].
  by apply list_elem_of_In.
Qed.

(** The walk from the root, for any tree: what [handle_directory] does
    is to take the things of the walk one after the other. *)
Lemma handle_directory_walk (b : bucket) (root : path) (n : node)
    (st : state remote) :
  is_dir n = true ->
  handle_directory b root root n st = for_each (walk n) (walk_step b root) st.
Proof.
  intros Hdir.
  replace root with (Path (anchor root) (parts root ++ [])) at 2
    by (rewrite app_nil_r; by destruct root).
  rewrite handle_directory_visits by done.
  apply for_each_ext. intros [rel|e] st' Hin; [|done].
  apply visit_sync_file. eapply files_in_nonempty. by apply in_walk_files.
Qed.

Lemma handle_directory_root (b : bucket) (root : path) (n : node)
    (st : state remote) :
  is_dir n = true -> listable n = true ->
  handle_directory b root root n st = for_each (files_in n) (sync_file b root) st.
Proof.
  intros Hdir Hl. rewrite handle_directory_walk by done.
  by rewrite (walk_listable _ Hl), for_each_map.
Qed.

Lemma upload_file_manifest (b : bucket) (path key : string) (st : state remote) :
  manifest (snd (upload_file b path key st)) = manifest st.
Proof.
  destruct (open_rb path) as [content|e] eqn:Hopen.
  - rewrite (upload_file_run _ _ _ _ _ Hopen).
    destruct (py_eq _ _); [done|]. apply call_upload_file_log.
  - by rewrite (upload_file_unreadable _ _ _ _ _ Hopen).
Qed.

(** The walk only reads the manifest. *)
Lemma handle_directory_manifest (b : bucket) (root : path) (n : node)
    (st : state remote) :
  manifest (snd (handle_directory b root root n st)) = manifest st.
Proof.
  destruct (is_dir n) eqn:Hdir.
  - rewrite handle_directory_walk by done.
    apply (for_each_preserves manifest). intros [rel|e] st'; [|done].
    apply upload_file_manifest.
  - by destruct n.
Qed.

Lemma sync_run (pathname bucket_name : string) (st : state remote)
    (pages : list page) :
  paginate bucket_name (s3 st) = (pages, None) ->
  sync pathname bucket_name st =
    handle_directory (Bucket bucket_name) (expand_resolve pathname)
      (expand_resolve pathname) (tree_at (expand_resolve pathname))
      (State (fold_left load_page pages (manifest st)) (s3 st) (uploads st)).
Proof.
  intros Hpages. unfold sync, bind, load_manifest. simpl name.
  by rewrite Hpages.
Qed.

End Walk.

Lemma prefix_app (s t : string) : String.prefix s (s +:+ t) = true.
Proof.
  induction s as [|a s IH]; simpl; [by destruct t|].
  destruct (ascii_dec a a); [exact IH | done].
Qed.

Lemma join_prefix (separator nm : string) (rest : list string) :
  String.prefix nm (join separator (nm :: rest)) = true.
Proof.
  destruct rest as [|x rest]; simpl.
  - induction nm as [|a nm IH]; simpl; [done|].
    destruct (ascii_dec a a); [exact IH | done].
  - apply prefix_app.
Qed.

Section Sync.
Context {remote : Type} {ext : Externals remote}.

(** C6, as the code has it. The manifest a run of [sync] decides with is
    the manager's manifest at entry overlaid with the listing: a listed
    key gets a listed fingerprint, any other key keeps the entry it had
    before the run. It is the listing alone when the manifest is empty at
    entry, as for a manager just built. Once loaded it is only read: no
    call of [upload_file] changes it, and the run ends with it. *)
Theorem sync_manifest_loaded_once (pathname bucket_name : string)
    (st : state remote) (pages : list page) :
  paginate bucket_name (s3 st) = (pages, None) ->
  let loaded := fold_left load_page pages (manifest st) in
  let root := expand_resolve pathname in
  sync pathname bucket_name st =
    handle_directory (Bucket bucket_name) root root (tree_at root)
      (State loaded (s3 st) (uploads st))
  /\ (forall o, In o (listed pages) ->
        exists o', In o' (listed pages) /\ Key o' = Key o /\
                   loaded !! Key o = Some (ETag o'))
  /\ (forall k, ~ In k (map Key (listed pages)) -> loaded !! k = manifest st !! k)
  /\ (manifest st = ∅ -> loaded = fold_left load_page pages ∅)
  /\ (forall b path key st', manifest (snd (upload_file b path key st')) = manifest st')
  /\ manifest (snd (sync pathname bucket_name st)) = loaded.
Proof.
  intros Hpages loaded root. subst loaded root.
  split; [by apply sync_run|].
  split; [intros o Ho; rewrite fold_load_pages; by apply fold_load_object_listed|].
  split; [intros k Hk; rewrite fold_load_pages; by apply fold_load_object_other|].
  split; [by intros ->|].
  split; [apply upload_file_manifest|].
  rewrite (sync_run _ _ _ _ Hpages). by rewrite handle_directory_manifest.
Qed.

(** C7, as the code has it. [sync] loads the manifest and then takes
    what the walk meets below the root, in walk order: every regular file
    is handed to [upload_file] with the local path made of the root and
    the names that lead to the file, and with the key made of those names
    alone, joined by the separator of the host's path flavour; a
    directory that cannot be listed raises its exception. The files of
    the walk are the regular files below the root, so when every
    directory can be listed [sync] hands each of them to [upload_file].
    The key starts with the first of its names, so it has no leading
    separator; where the separator is the forward slash, the file at
    [sub], [dir], [a.txt] below the root gets the key [sub/dir/a.txt]. *)
Theorem sync_keys_follow_host_separator (pathname bucket_name : string)
    (st : state remote) :
  is_dir (tree_at (expand_resolve pathname)) = true ->
  let root := expand_resolve pathname in
  sync pathname bucket_name st =
    bind (load_manifest (Bucket bucket_name))
         (fun _ => for_each (walk (tree_at root))
                      (walk_step (Bucket bucket_name) root)) st
  /\ omap walk_file (walk (tree_at root)) = files_in (tree_at root)
  /\ (listable (tree_at root) = true ->
      sync pathname bucket_name st =
        bind (load_manifest (Bucket bucket_name))
             (fun _ => for_each (files_in (tree_at root))
                          (sync_file (Bucket bucket_name) root)) st)
  /\ (forall rel, In rel (files_in (tree_at root)) ->
        exists nm rest, rel = nm :: rest /\
                        String.prefix nm (join sep rel) = true)
  /\ (sep = "/"%string ->
      join sep ["sub"; "dir"; "a.txt"]%string = "sub/dir/a.txt"%string).
Proof.
  intros Hdir root. subst root. split; [|split; [|split; [|split]]].
  - unfold sync. apply bind_ext; [done|]. intros _ st'.
    by apply handle_directory_walk.
  - apply walk_files.
  - intros Hl. unfold sync. apply bind_ext; [done|]. intros _ st'.
    by apply handle_directory_root.
  - intros rel Hin. apply files_in_nonempty in Hin.
    destruct rel as [|nm rest]; [done|].
    exists nm, rest. split; [done | apply join_prefix].
  - by intros ->.
Qed.

(** C8. [init_bucket] returns the handle the provider gives when the
    creation succeeds; when the provider raises a client error whose code
    is [BucketAlreadyOwnedByYou] it returns a handle for the name and
    raises nothing; any other exception of the creation is raised again
    as it is. So a second [init_bucket] for a name, answered by the
    provider with success or with that code, succeeds as the first did. *)
Theorem init_bucket_already_owned (bucket_name : string) (st : state remote) :
  let out := create_bucket bucket_name (s3 st) in
  let st' := State (manifest st) (snd out) (uploads st) in
  (forall b, fst out = Return b -> init_bucket bucket_name st = (Return b, st'))
  /\ (forall msg, fst out = Raise (ClientError "BucketAlreadyOwnedByYou" msg) ->
        init_bucket bucket_name st = (Return (Bucket bucket_name), st'))
  /\ (forall e, fst out = Raise e ->
        (forall msg, e <> ClientError "BucketAlreadyOwnedByYou" msg) ->
        init_bucket bucket_name st = (Raise e, st'))
  /\ (forall b1 st1,
        init_bucket bucket_name st = (Return b1, st1) ->
        (forall e, fst (create_bucket bucket_name (s3 st1)) = Raise e ->
                   exists msg, e = ClientError "BucketAlreadyOwnedByYou" msg) ->
        exists b2 st2, init_bucket bucket_name st1 = (Return b2, st2)).
Proof.
  assert (Hrun : forall s : state remote,
    init_bucket bucket_name s =
      match fst (create_bucket bucket_name (s3 s)) with
      | Return b => (Return b, State (manifest s) (snd (create_bucket bucket_name (s3 s))) (uploads s))
      | Raise (ClientError code msg) =>
          if String.eqb code "BucketAlreadyOwnedByYou"
          then (Return (Bucket bucket_name),
                State (manifest s) (snd (create_bucket bucket_name (s3 s))) (uploads s))
          else (Raise (ClientError code msg),
                State (manifest s) (snd (create_bucket bucket_name (s3 s))) (uploads s))
      | Raise e => (Raise e, State (manifest s) (snd (create_bucket bucket_name (s3 s))) (uploads s))
      end).
  { intros s. unfold init_bucket, try_except, call_create_bucket.
    destruct (create_bucket bucket_name (s3 s)) as [[b|e] r]; [done|].
    simpl. destruct e; try done. by destruct (String.eqb _ _). }
  intros out st'. subst out st'. repeat split.
  - intros b Hb. by rewrite Hrun, Hb.
  - intros msg Hb. by rewrite Hrun, Hb.
  - intros e He Hne. rewrite Hrun, He. destruct e as [f| |code msg|nm]; try done.
    destruct (String.eqb_spec code "BucketAlreadyOwnedByYou") as [->|]; [|done].
    by destruct (Hne msg).
  - intros b1 st1 _ Hprov. rewrite (Hrun st1).
    destruct (fst (create_bucket bucket_name (s3 st1))) as [b|e]; [by eauto|].
    destruct (Hprov e eq_refl) as [msg ->]. simpl. eauto.
Qed.

End Sync.

(** ** The statements on the concrete host *)

Lemma sync_manifest_loaded_once_witness :
  manifest (snd (sync (ext := posix_host) "site" "site" (new_manager [])))
  = fold_left load_page demo_pages ∅.
Proof.
  pose proof (sync_manifest_loaded_once (ext := posix_host) "site" "site"
                (new_manager []) demo_pages eq_refl) as H.
  apply H.
Defined.

(** A second run on the same manager decides with entries of the first:
    after a run against the bucket [archive], whose listing has
    [old.txt], a run against the bucket [site] still finds [old.txt] in
    its manifest, though the listing of [site] does not have that key. *)
Lemma sync_manifest_keeps_earlier_run :
  let st1 := snd (sync (ext := posix_host) "site" "archive" (new_manager [])) in
  paginate (Externals := posix_host) "site" (s3 st1) = (demo_pages, None) /\
  manifest (snd (sync (ext := posix_host) "site" "site" st1)) !! "old.txt"%string
    = Some "e0"%string /\
  fold_left load_page demo_pages (∅ : gmap string string) !! "old.txt"%string = None.
Proof. repeat split; vm_compute; reflexivity. Qed.

Lemma sync_keys_follow_host_separator_witness :
  join (sep (Externals := posix_host)) ["sub"; "dir"; "a.txt"]%string
  = "sub/dir/a.txt"%string.
Proof.
  pose proof (sync_keys_follow_host_separator (ext := posix_host) "site" "site"
                (new_manager []) eq_refl) as H.
  apply H. reflexivity.
Defined.

Example sync_posix_uploads :
  map (fun c => (up_path c, up_key c, up_ContentType c))
      (uploads (snd (sync (ext := posix_host) "site" "site" (new_manager []))))
  = [("/srv/site/sub/dir/a.txt", "sub/dir/a.txt", "text/plain")]%string.
Proof. vm_compute. reflexivity. Qed.

(** On a host whose path flavour separates with the backslash, the key of
    the file at [sub], [dir], [a.txt] below the root has backslashes. *)
Lemma sync_windows_key_has_backslashes :
  In ["sub"; "dir"; "a.txt"]%string
     (files_in (tree_at (Externals := windows_host)
                  (expand_resolve (Externals := windows_host) "site"))) /\
  map (fun c => (up_path c, up_key c))
      (uploads (snd (sync (ext := windows_host) "site" "site" (new_manager []))))
  = [("C:\srv\site\sub\dir\a.txt", "sub\dir\a.txt")]%string /\
  "sub\dir\a.txt"%string <> "sub/dir/a.txt"%string.
Proof.
  split; [|split].
  - vm_compute. tauto.
  - vm_compute. reflexivity.
  - discriminate.
Qed.

Lemma init_bucket_already_owned_witness :
  exists b2 st2,
    init_bucket (ext := posix_host) "webotron" (State ∅ ["webotron"%string] [])
    = (Return b2, st2).
Proof.
  pose proof (init_bucket_already_owned (ext := posix_host) "webotron"
                (new_manager [])) as H.
  apply H with (b1 := Bucket "webotron").
  - reflexivity.
  - intros e He. vm_compute in He. injection He as <-. eauto.
Defined.

Example init_bucket_twice :
  let first := init_bucket (ext := posix_host) "webotron" (new_manager []) in
  let second := init_bucket (ext := posix_host) "webotron" (snd first) in
  fst first = Return (Bucket "webotron") /\
  fst second = Return (Bucket "webotron") /\
  fst (init_bucket (ext := posix_host) "taken" (new_manager []))
  = Raise (ClientError "BucketAlreadyExists" "the name is in use").
Proof. repeat split; vm_compute; reflexivity. Qed.

(** * Further properties of the code *)

(** ** The chunks of a file *)

(** Every stream is cut into chunks by successive reads. *)
Lemma chunked_exists (size : N) (f : list byte) :
  (0 < size)%N -> exists cs, concat cs = f /\ chunked size cs.
Proof.
  intros Hpos.
  induction f as [f IH] using (induction_ltof1 _ (@length byte)).
  unfold ltof in IH.
  destruct f as [|b f']; [by exists []|].
  destruct (N.le_gt_cases (N.of_nat (length (b :: f'))) size) as [Hle|Hgt].
  - exists [b :: f']. split; [simpl; by rewrite app_nil_r | by split].
  - destruct (IH (drop (N.to_nat size) (b :: f'))) as (cs & Hcat & Hch).
    { rewrite length_drop. simpl length in *. lia. }
    assert (Ht : N.of_nat (length (take (N.to_nat size) (b :: f'))) = size)
      by (rewrite length_take; lia).
    exists (take (N.to_nat size) (b :: f') :: cs). split.
    + simpl. rewrite Hcat. apply take_drop.
    + destruct cs as [|c cs].
      * exfalso. simpl in Hcat. apply (f_equal length) in Hcat.
        rewrite length_drop in Hcat. simpl length in *. lia.
      * split; [exact Ht | exact Hch].
Qed.

Lemma chunked_bounds (size : N) (cs : list (list byte)) :
  (0 < size)%N -> chunked size cs ->
  Forall (fun c => c <> [] /\ (N.of_nat (length c) <= size)%N) cs.
Proof.
  intros Hpos. induction cs as [|c cs IH]; intros Hc; [constructor|].
  destruct cs as [|c' cs].
  - constructor; [exact Hc | constructor].
  - destruct Hc as [Hlen Hc]. constructor; [|by apply IH].
    split; [|lia]. intros ->. simpl in Hlen. lia.
Qed.

Lemma chunked_count (size : N) (cs : list (list byte)) :
  (0 < size)%N -> chunked size cs ->
  N.of_nat (length cs) = ((N.of_nat (length (concat cs)) + size - 1) / size)%N.
Proof.
  intros Hpos. induction cs as [|c cs IH]; intros Hc.
  - simpl. symmetry. apply N.div_small. lia.
  - destruct cs as [|c' cs].
    + destruct Hc as [Hne Hle]. simpl concat. rewrite app_nil_r.
      assert (0 < length c)%nat by (destruct c; [done | simpl; lia]).
      apply (N.div_unique _ _ _ (N.of_nat (length c) - 1)); simpl length; lia.
    + destruct Hc as [Hlen Hc]. specialize (IH Hc).
      change (concat (c :: c' :: cs)) with (c ++ concat (c' :: cs)).
      rewrite length_app, Nat2N.inj_add, Hlen.
      set (L := N.of_nat (length (concat (c' :: cs)))) in *.
      change (length (c :: c' :: cs)) with (S (length (c' :: cs))).
      rewrite Nat2N.inj_succ, IH.
      pose proof (N.div_mod (L + size - 1) size ltac:(lia)) as Hdm.
      pose proof (N.mod_lt (L + size - 1) size ltac:(lia)) as Hlt.
      apply (N.div_unique _ _ _ ((L + size - 1) mod size)); lia.
Qed.

Lemma map_fed_hash_data (cs : list (list byte)) : map fed (map hash_data cs) = cs.
Proof. rewrite map_map. apply map_id. Qed.

(** X1. The hash objects that the loop of [gen_etag] builds partition the
    file: the bytes fed to them, taken in order, are the content of the
    file, and each was fed at least one byte and at most [CHUNK_SIZE]. *)
Theorem read_loop_partitions (content : list byte) :
  concat (map fed (read_loop CHUNK_SIZE content [])) = content /\
  Forall (fun h => fed h <> [] /\ (N.of_nat (length (fed h)) <= CHUNK_SIZE)%N)
         (read_loop CHUNK_SIZE content []).
Proof.
  destruct (chunked_exists CHUNK_SIZE content CHUNK_SIZE_pos) as (cs & <- & Hch).
  rewrite (read_loop_chunked _ _ _ CHUNK_SIZE_pos Hch), app_nil_l.
  split; [by rewrite map_fed_hash_data|].
  apply Forall_map. exact (chunked_bounds _ _ CHUNK_SIZE_pos Hch).
Qed.

(** X2. The number of hash objects, which is the part count that a
    multipart fingerprint ends with, is the length of the file divided by
    [CHUNK_SIZE] and rounded up. *)
Theorem read_loop_part_count (content : list byte) :
  N.of_nat (length (read_loop CHUNK_SIZE content [])) =
  ((N.of_nat (length content) + CHUNK_SIZE - 1) / CHUNK_SIZE)%N.
Proof.
  destruct (chunked_exists CHUNK_SIZE content CHUNK_SIZE_pos) as (cs & <- & Hch).
  rewrite (read_loop_chunked _ _ _ CHUNK_SIZE_pos Hch), app_nil_l, length_map.
  exact (chunked_count _ _ CHUNK_SIZE_pos Hch).
Qed.

(** ** The shape of a fingerprint *)

Lemma le_bytes_length (n : nat) (z : Z) : length (MD5.le_bytes n z) = n.
Proof. revert z. induction n as [|n IH]; intros z; [done|]. simpl. by rewrite IH. Qed.

Lemma md5_length (msg : list byte) : length (MD5.md5 msg) = 16%nat.
Proof.
  unfold MD5.md5, MD5.digest_of_regs.
  by rewrite !length_app, !le_bytes_length.
Qed.

Lemma hex_length (bs : list byte) : String.length (hex bs) = (2 * length bs)%nat.
Proof. induction bs as [|b bs IH]; [done|]. simpl. rewrite IH. lia. Qed.

Lemma get_after (s t : string) : String.get (String.length s) (s +:+ t) = String.get 0 t.
Proof. symmetry. exact (append_correct2 s t 0). Qed.

(** The character after the thirty-two hex digits of a fingerprint. *)
Lemma etag_char_33 (d : list byte) (rest : string) :
  length d = 16%nat ->
  String.get 33 (dquote +:+ hex d +:+ rest) = String.get 0 rest.
Proof.
  intros Hd. rewrite dquote_app.
  change (String.get 33 (String "034" (hex d +:+ rest)))
    with (String.get 32 (hex d +:+ rest)).
  replace 32%nat with (String.length (hex d)) by (rewrite hex_length; lia).
  apply get_after.
Qed.

Lemma chunked_single (size : N) (cs : list (list byte)) :
  (0 < size)%N -> chunked size cs -> concat cs <> [] ->
  (N.of_nat (length (concat cs)) <= size)%N -> exists c, cs = [c].
Proof.
  intros Hpos Hc Hne Hle. destruct cs as [|c [|c' cs]]; [done | by eauto |].
  exfalso. pose proof (chunked_bounds _ _ Hpos Hc) as Hb.
  destruct Hc as [Hlen _].
  apply Forall_cons in Hb as [_ Hb]. apply Forall_cons in Hb as [[Hc' _] _].
  change (concat (c :: c' :: cs)) with (c ++ c' ++ concat cs) in Hle.
  rewrite !length_app in Hle. destruct c'; [done | simpl length in Hle; lia].
Qed.

Lemma chunked_several (size : N) (cs : list (list byte)) :
  chunked size cs -> (size < N.of_nat (length (concat cs)))%N ->
  exists c c' cs', cs = c :: c' :: cs'.
Proof.
  intros Hc Hgt. destruct cs as [|c [|c' cs]]; [simpl in Hgt; lia | | by eauto].
  destruct Hc as [_ Hle]. simpl concat in Hgt. rewrite app_nil_r in Hgt. lia.
Qed.

(** X3. The fingerprint of a file of at most [CHUNK_SIZE] bytes and the
    fingerprint of a larger file are never equal: where the first has its
    closing quote, the second has the dash before its part count. *)
Theorem single_and_multipart_etags_differ (small large : list byte) :
  (N.of_nat (length small) <= CHUNK_SIZE)%N ->
  (CHUNK_SIZE < N.of_nat (length large))%N ->
  gen_etag_bytes small <> gen_etag_bytes large.
Proof.
  intros Hsmall Hlarge. unfold gen_etag_bytes.
  destruct (chunked_exists CHUNK_SIZE large CHUNK_SIZE_pos) as (cl & <- & Hcl).
  destruct (chunked_several _ _ Hcl Hlarge) as (c & c' & cs' & ->).
  rewrite (gen_etag_bytes_chunked _ _ CHUNK_SIZE_pos Hcl), etag_of_chunks.
  destruct small as [|b small].
  - rewrite read_loop_nil. discriminate.
  - destruct (chunked_exists CHUNK_SIZE (b :: small) CHUNK_SIZE_pos)
      as (cs & Hcat & Hcs).
    rewrite <- Hcat in Hsmall |- *.
    destruct (chunked_single _ _ CHUNK_SIZE_pos Hcs) as [c1 ->];
      [by rewrite Hcat | done |].
    rewrite (gen_etag_bytes_chunked _ _ CHUNK_SIZE_pos Hcs), etag_of_chunks.
    intros E.
    apply (f_equal (fun o => match o with Some e => String.get 33 e | None => None end))
      in E.
    cbv beta iota in E.
    rewrite !etag_char_33 in E by apply md5_length. discriminate.
Qed.

Lemma single_and_multipart_etags_differ_witness :
  gen_etag_bytes [x61] <> gen_etag_bytes (big_chunk ++ [x61]).
Proof.
  apply (single_and_multipart_etags_differ [x61] (big_chunk ++ [x61])).
  - unfold CHUNK_SIZE. simpl. lia.
  - rewrite length_app, Nat2N.inj_add, big_chunk_length. simpl length. lia.
Defined.

(** ** What a run of [sync] uploads, and where it stops *)

Section SyncRuns.
Context {remote : Type} {ext : Externals remote}.

Lemma upload_file_log (b : bucket) (path key : string) (st : state remote) :
  uploads (snd (upload_file b path key st)) = uploads st \/
  uploads (snd (upload_file b path key st)) = uploads st ++ [the_upload b path key].
Proof.
  destruct (open_rb path) as [content|e] eqn:Hopen.
  - rewrite (upload_file_run _ _ _ _ _ Hopen).
    destruct (py_eq _ _); [by left|]. right. apply call_upload_file_log.
  - left. by rewrite (upload_file_unreadable _ _ _ _ _ Hopen).
Qed.

(** A loop of uploads adds to the log calls for some of its items, in
    order, and nothing else. *)
Lemma for_each_log {A} (call : A -> option upload_call) (body : A -> M remote unit)
    (l : list A) (st : state remote) :
  (forall x st', uploads (snd (body x st')) = uploads st' \/
                 exists c, call x = Some c /\
                           uploads (snd (body x st')) = uploads st' ++ [c]) ->
  exists new, uploads (snd (for_each l body st)) = uploads st ++ new /\
              sublist new (omap call l).
Proof.
  intros Hbody. revert st. induction l as [|x l IH]; intros st.
  - exists []. split; [by rewrite app_nil_r | constructor].
  - simpl for_each. unfold bind. specialize (Hbody x st).
    assert (Hskip : forall new, sublist new (omap call l) ->
                                sublist new (omap call (x :: l))).
    { intros new Hsub. csimpl. destruct (call x); [by apply sublist_cons | done]. }
    destruct (body x st) as [[[]|e] st'] eqn:E; simpl in Hbody.
    + destruct (IH st') as (new & Hnew & Hsub). destruct Hbody as [H|(c & Hc & H)].
      * exists new. rewrite Hnew, H. split; [done | by apply Hskip].
      * exists (c :: new). rewrite Hnew, H, <- app_assoc.
        split; [done|]. csimpl. rewrite Hc. by apply sublist_skip.
    + simpl. destruct Hbody as [H|(c & Hc & H)].
      * exists []. rewrite H, app_nil_r. split; [done | apply sublist_nil_l].
      * exists [c]. split; [done|]. csimpl. rewrite Hc.
        apply sublist_skip, sublist_nil_l.
Qed.

Lemma for_each_raises {A} (body : A -> M remote unit) (before after : list A)
    (x : A) (st : state remote) :
  (forall st', exists e, fst (body x st') = Raise e) ->
  exists e, fst (for_each (before ++ x :: after) body st) = Raise e /\
            snd (for_each (before ++ x :: after) body st)
            = snd (for_each (before ++ [x]) body st).
Proof.
  intros Hx. revert st. induction before as [|y before IH]; intros st.
  - simpl. unfold bind. destruct (Hx st) as [e He].
    destruct (body x st) as [[[]|e'] st']; simpl in *; [done | eauto].
  - simpl. unfold bind. destruct (body y st) as [[[]|e'] st']; [apply IH | eauto].
Qed.

Lemma omap_split {A B} (f : A -> option B) (l : list A) (l1 l2 : list B) (y : B) :
  omap f l = l1 ++ y :: l2 ->
  exists k1 x k2, l = k1 ++ x :: k2 /\ f x = Some y /\ omap f k1 = l1.
Proof.
  revert l1. induction l as [|a l IH]; intros l1 H.
  - by destruct l1.
  - csimpl in H. destruct (f a) as [b0|] eqn:Ha.
    + destruct l1 as [|b1 l1].
      * injection H as -> _. exists [], a, l. by rewrite Ha.
      * injection H as -> H. destruct (IH _ H) as (k1 & x & k2 & -> & Hx & Hk).
        exists (a :: k1), x, k2. csimpl. by rewrite Ha, Hk.
    + destruct (IH _ H) as (k1 & x & k2 & -> & Hx & Hk).
      exists (a :: k1), x, k2. csimpl. by rewrite Ha, Hk.
Qed.

Lemma omap_fmap_walk_file {B} (g : list string -> B) (l : list (list string + exn)) :
  omap (fun ev => g <$> walk_file ev) l = map g (omap walk_file l).
Proof.
  induction l as [|[rel|e] l IH]; [done| |]; csimpl; by rewrite IH.
Qed.

Lemma load_manifest_ok (b : bucket) (st : state remote) (pages : list page) :
  paginate (name b) (s3 st) = (pages, None) ->
  load_manifest b st =
    (Return tt, State (fold_left load_page pages (manifest st)) (s3 st) (uploads st)).
Proof. intros H. unfold load_manifest. by rewrite H. Qed.

Lemma load_manifest_fails (b : bucket) (st : state remote) (pages : list page)
    (e : exn) :
  paginate (name b) (s3 st) = (pages, Some e) ->
  load_manifest b st =
    (Raise e, State (fold_left load_page pages (manifest st)) (s3 st) (uploads st)).
Proof. intros H. unfold load_manifest. by rewrite H. Qed.

Lemma sync_walk (pathname bucket_name : string) (st : state remote)
    (pages : list page) :
  paginate bucket_name (s3 st) = (pages, None) ->
  is_dir (tree_at (expand_resolve pathname)) = true ->
  sync pathname bucket_name st =
    for_each (walk (tree_at (expand_resolve pathname)))
      (walk_step (Bucket bucket_name) (expand_resolve pathname))
      (State (fold_left load_page pages (manifest st)) (s3 st) (uploads st)).
Proof.
  intros Hpages Hdir. rewrite (sync_run _ _ _ _ Hpages).
  by apply handle_directory_walk.
Qed.


(** The log of a walk: calls for files of the walk, in order. *)
Lemma walk_log (b : bucket) (root : path) (l : list (list string + exn))
    (st : state remote) :
  exists new,
    uploads (snd (for_each l (walk_step b root) st)) = uploads st ++ new /\
    sublist new
      (map (fun rel => the_upload b (file_path root rel) (join sep rel))
           (omap walk_file l)).
Proof.
  rewrite <- omap_fmap_walk_file. apply for_each_log.
  intros [rel|e] st'; [|by left].
  destruct (upload_file_log b (file_path root rel) (join sep rel) st') as [H|H];
    [by left | right]. eexists. split; [reflexivity | exact H].
Qed.

(** X4. Whatever happens during a run, the calls of [bucket.upload_file]
    that [sync] adds are calls for regular files below the root, each
    with the path of the file and the key made of its names, in walk
    order and at most one per file: nothing else is ever uploaded. *)
Theorem sync_uploads_only_files_below_root (pathname bucket_name : string)
    (st : state remote) :
  exists new,
    uploads (snd (sync pathname bucket_name st)) = uploads st ++ new /\
    sublist new
      (map (fun rel => the_upload (Bucket bucket_name)
                         (file_path (expand_resolve pathname) rel) (join sep rel))
           (files_in (tree_at (expand_resolve pathname)))).
Proof.
  destruct (paginate bucket_name (s3 st)) as [pages [e|]] eqn:Hpages.
  - exists []. split; [|apply sublist_nil_l].
    unfold sync, bind.
    rewrite (load_manifest_fails (Bucket bucket_name) _ _ _ Hpages).
    simpl. by rewrite app_nil_r.
  - destruct (is_dir (tree_at (expand_resolve pathname))) eqn:Hdir.
    + rewrite (sync_walk _ _ _ _ Hpages Hdir).
      destruct (walk_log (Bucket bucket_name) (expand_resolve pathname)
                  (walk (tree_at (expand_resolve pathname)))
                  (State (fold_left load_page pages (manifest st)) (s3 st) (uploads st)))
        as (new & Hnew & Hsub).
      rewrite walk_files in Hsub.
      exists new. split; [exact Hnew | exact Hsub].
    + exists []. split; [|apply sublist_nil_l].
      rewrite (sync_run _ _ _ _ Hpages).
      destruct (tree_at (expand_resolve pathname)); try done;
        simpl; by rewrite app_nil_r.
Qed.

(** X5. A file that cannot be opened stops the run: [sync] raises, and no
    file that comes after it in walk order is uploaded. *)
Theorem sync_stops_at_unreadable_file (pathname bucket_name : string)
    (st : state remote) (pages : list page)
    (before after : list (list string)) (rel : list string) (e : exn) :
  paginate bucket_name (s3 st) = (pages, None) ->
  is_dir (tree_at (expand_resolve pathname)) = true ->
  files_in (tree_at (expand_resolve pathname)) = before ++ rel :: after ->
  open_rb (file_path (expand_resolve pathname) rel) = Raise e ->
  (exists e', fst (sync pathname bucket_name st) = Raise e') /\
  exists new,
    uploads (snd (sync pathname bucket_name st)) = uploads st ++ new /\
    sublist new
      (map (fun r => the_upload (Bucket bucket_name)
                       (file_path (expand_resolve pathname) r) (join sep r))
           before).
Proof.
  intros Hpages Hdir Hfiles Hopen.
  rewrite (sync_walk _ _ _ _ Hpages Hdir).
  rewrite <- walk_files in Hfiles.
  destruct (omap_split _ _ _ _ _ Hfiles) as (k1 & x & k2 & -> & Hx & Hk1).
  destruct x as [rel'|e0]; [|done]. injection Hx as ->.
  set (st0 := State _ _ _).
  destruct (for_each_raises (walk_step (Bucket bucket_name) (expand_resolve pathname))
              k1 k2 (inl rel) st0) as (e' & He' & Hst).
  { intros st'. exists e. unfold walk_step, sync_file.
    by rewrite (upload_file_unreadable _ _ _ _ _ Hopen). }
  split; [by eauto|]. rewrite Hst.
  rewrite for_each_app. unfold bind.
  destruct (walk_log (Bucket bucket_name) (expand_resolve pathname) k1 st0)
    as (new & Hnew & Hsub).
  rewrite Hk1 in Hsub. exists new. split; [|done].
  destruct (for_each k1 _ st0) as [[[]|e1] st1]; simpl in *; [|done].
  unfold bind, sync_file.
  by rewrite (upload_file_unreadable _ _ _ _ _ Hopen).
Qed.


(** X7. When the listing fails, [sync] raises the paginator's exception
    before it looks at any file: no upload is made and the provider is
    not touched; the manifest keeps the pages that had arrived. *)
Theorem sync_aborts_on_listing_failure (pathname bucket_name : string)
    (st : state remote) (pages : list page) (e : exn) :
  paginate bucket_name (s3 st) = (pages, Some e) ->
  sync pathname bucket_name st =
    (Raise e, State (fold_left load_page pages (manifest st)) (s3 st) (uploads st)).
Proof.
  intros Hpages. unfold sync, bind.
  by rewrite (load_manifest_fails (Bucket bucket_name) _ _ _ Hpages).
Qed.

(** X8. When the root is not a directory, [sync] loads the manifest and
    then raises an [OSError] for the root; no upload is made. *)
Theorem sync_root_not_a_directory (pathname bucket_name : string)
    (st : state remote) (pages : list page) :
  paginate bucket_name (s3 st) = (pages, None) ->
  is_dir (tree_at (expand_resolve pathname)) = false ->
  sync pathname bucket_name st =
    (Raise (OSError (str_path (expand_resolve pathname))),
     State (fold_left load_page pages (manifest st)) (s3 st) (uploads st)).
Proof.
  intros Hpages Hdir. rewrite (sync_run _ _ _ _ Hpages).
  by destruct (tree_at (expand_resolve pathname)).
Qed.

End SyncRuns.

Lemma sync_stops_at_unreadable_file_witness :
  (exists e', fst (sync (ext := lab_host) "broken" "site" (new_manager [])) = Raise e') /\
  exists new,
    uploads (snd (sync (ext := lab_host) "broken" "site" (new_manager [])))
    = uploads (new_manager ([] : list string)) ++ new /\
    sublist new
      (map (fun r => the_upload (ext := lab_host) (Bucket "site")
                       (file_path (ext := lab_host)
                          (expand_resolve (Externals := lab_host) "broken") r)
                       (join (sep (Externals := lab_host)) r))
           [["index.html"%string]]).
Proof.
  apply (sync_stops_at_unreadable_file (ext := lab_host) "broken" "site"
           (new_manager []) demo_pages [["index.html"%string]]
           [["later.txt"%string]] ["gone.txt"%string]
           (OSError "/lab/broken/gone.txt")); reflexivity.
Defined.

Example sync_broken_run :
  sync (ext := lab_host) "broken" "site" (new_manager [])
  = (Raise (OSError "/lab/broken/gone.txt"),
     State (fold_left load_page demo_pages ∅) []
           [the_upload (ext := lab_host) (Bucket "site")
              "/lab/broken/index.html" "index.html"]).
Proof. vm_compute. reflexivity. Qed.


Lemma sync_aborts_on_listing_failure_witness :
  sync (ext := posix_host) "site" "private" (new_manager [])
  = (Raise (ClientError "AccessDenied" "Access Denied"),
     State (fold_left load_page [] ∅) [] []).
Proof.
  apply (sync_aborts_on_listing_failure (ext := posix_host) "site" "private"
           (new_manager []) [] (ClientError "AccessDenied" "Access Denied")).
  reflexivity.
Defined.

Lemma sync_root_not_a_directory_witness :
  sync (ext := lab_host) "file" "site" (new_manager [])
  = (Raise (OSError "/lab/file"), State (fold_left load_page demo_pages ∅) [] []).
Proof.
  apply (sync_root_not_a_directory (ext := lab_host) "file" "site"
           (new_manager []) demo_pages); reflexivity.
Defined.

(** ** What [load_manifest] leaves in the manifest *)

Lemma last_etag_acc (objs : list s3_object) (k : string) (acc : option string) :
  fold_left (fun acc o => if decide (Key o = k) then Some (ETag o) else acc) objs acc
  = match last_etag objs k with Some e => Some e | None => acc end.
Proof.
  unfold last_etag. revert acc. induction objs as [|o objs IH]; intros acc; [done|].
  simpl. rewrite IH. rewrite (IH (if decide (Key o = k) then _ else _)).
  destruct (fold_left _ objs None); [done|]. by destruct (decide (Key o = k)).
Qed.

Lemma fold_load_object_lookup (objs : list s3_object) (m : gmap string string)
    (k : string) :
  fold_left load_object objs m !! k
  = match last_etag objs k with Some e => Some e | None => m !! k end.
Proof.
  revert m. induction objs as [|o objs IH]; intros m; [done|].
  simpl. rewrite IH.
  change (last_etag (o :: objs) k)
    with (fold_left (fun acc o => if decide (Key o = k) then Some (ETag o) else acc)
            objs (if decide (Key o = k) then Some (ETag o) else None)).
  rewrite last_etag_acc.
  destruct (last_etag objs k); [done|]. unfold load_object.
  destruct (decide (Key o = k)) as [<-|Hne].
  - apply lookup_insert_eq.
  - by apply lookup_insert_ne.
Qed.

Section ManifestContent.
Context {remote : Type} {ext : Externals remote}.

(** X9. After [load_manifest] a key holds the fingerprint that the
    listing gave last for it, and a key that the listing does not have
    holds what it held before; this is so whether the paginator ended
    normally or raised after some pages. *)
Theorem load_manifest_last_listed_wins (b : bucket) (st : state remote) (k : string) :
  manifest (snd (load_manifest b st)) !! k
  = match last_etag (listed (fst (paginate (name b) (s3 st)))) k with
    | Some e => Some e
    | None => manifest st !! k
    end.
Proof.
  rewrite load_manifest_run. simpl. rewrite fold_load_pages.
  apply fold_load_object_lookup.
Qed.

(** X10. Loading the same listing again changes nothing: a second
    [load_manifest] against an unchanged provider leaves the state that
    the first one left. *)
Theorem load_manifest_idempotent (b : bucket) (st : state remote) :
  snd (load_manifest b (snd (load_manifest b st))) = snd (load_manifest b st).
Proof.
  rewrite !load_manifest_run. simpl. f_equal.
  apply map_eq. intros k. rewrite !fold_load_pages, !fold_load_object_lookup.
  by destruct (last_etag _ k).
Qed.

End ManifestContent.

Example load_manifest_keeps_last :
  fold_left load_page
    [ Page (Some [S3Object "a" "e1"; S3Object "b" "e2"]);
      Page None;
      Page (Some [S3Object "a" "e3"]) ]%string
    ({[ "z"%string := "e0"%string ]} : gmap string string)
  = {[ "a" := "e3"; "b" := "e2"; "z" := "e0" ]}%string.
Proof. vm_compute. reflexivity. Qed.

(** ** The policy document, the bucket URL and the commands *)

Lemma list_ascii_of_string_app (s t : string) :
  list_ascii_of_string (s +:+ t) = list_ascii_of_string s ++ list_ascii_of_string t.
Proof. induction s as [|a s IH]; [done|]. simpl. by rewrite IH. Qed.

Lemma string_of_list_ascii_app (l l' : list ascii) :
  string_of_list_ascii (l ++ l') = string_of_list_ascii l +:+ string_of_list_ascii l'.
Proof. induction l as [|a l IH]; [done|]. simpl. by rewrite IH. Qed.

Lemma lstrip_chars_spaces (ws rest : list ascii) :
  Forall (fun a => is_space a = true) ws ->
  lstrip_chars (ws ++ rest) = lstrip_chars rest.
Proof. induction 1 as [|a ws Ha _ IH]; [done|]. simpl. by rewrite Ha. Qed.

Lemma lstrip_chars_stop (c : ascii) (l : list ascii) :
  is_space c = false -> lstrip_chars (c :: l) = c :: l.
Proof. intros Hc. simpl. by rewrite Hc. Qed.

Lemma strip_list_framed (ws mid : list ascii) (c d : ascii) :
  Forall (fun a => is_space a = true) ws ->
  is_space c = false -> is_space d = false ->
  rev (lstrip_chars (rev (lstrip_chars (ws ++ c :: mid ++ [d]))))
  = c :: mid ++ [d].
Proof.
  intros Hws Hc Hd.
  rewrite (lstrip_chars_spaces _ _ Hws), (lstrip_chars_stop _ _ Hc).
  rewrite app_comm_cons, rev_unit, (lstrip_chars_stop _ _ Hd).
  change (rev (d :: rev (c :: mid))) with (rev (rev (c :: mid)) ++ [d]).
  by rewrite rev_involutive.
Qed.

(** [strip] removes the white space around a text that starts and ends
    with other characters, and nothing of the text. *)
Lemma strip_framed (ws : list ascii) (c d : ascii) (mid : string) :
  Forall (fun a => is_space a = true) ws ->
  is_space c = false -> is_space d = false ->
  strip (string_of_list_ascii ws +:+ String c (mid +:+ String d EmptyString))
  = String c (mid +:+ String d EmptyString).
Proof.
  intros Hws Hc Hd. unfold strip.
  rewrite list_ascii_of_string_app, list_ascii_of_string_of_list_ascii.
  change (list_ascii_of_string (String c (mid +:+ String d EmptyString)))
    with (c :: list_ascii_of_string (mid +:+ String d EmptyString)).
  rewrite list_ascii_of_string_app.
  change (list_ascii_of_string (String d EmptyString)) with [d].
  rewrite (strip_list_framed _ _ _ _ Hws Hc Hd).
  change (string_of_list_ascii (c :: list_ascii_of_string mid ++ [d]))
    with (String c (string_of_list_ascii (list_ascii_of_string mid ++ [d]))).
  by rewrite string_of_list_ascii_app, string_of_list_ascii_of_string.
Qed.

Lemma append_assoc (s t u : string) : (s +:+ t) +:+ u = s +:+ t +:+ u.
Proof.
  induction s as [|a s IH]; [done|].
  change (String a ((s +:+ t) +:+ u) = String a (s +:+ t +:+ u)). by rewrite IH.
Qed.

Section Services.
Context {remote : Type} {ext : Externals remote} {col : Collaborators remote}.

Lemma call_remote_run {A} (f : remote -> result A * remote) (st : state remote) :
  call_remote f st = (fst (f (s3 st)), State (manifest st) (snd (f (s3 st))) (uploads st)).
Proof. unfold call_remote. by destruct (f (s3 st)). Qed.

Lemma init_bucket_run (bucket_name : string) (st : state remote) :
  init_bucket bucket_name st =
    (match fst (create_bucket bucket_name (s3 st)) with
     | Return b => Return b
     | Raise (ClientError code msg) =>
         if String.eqb code "BucketAlreadyOwnedByYou"
         then Return (Bucket bucket_name) else Raise (ClientError code msg)
     | Raise e => Raise e
     end,
     State (manifest st) (snd (create_bucket bucket_name (s3 st))) (uploads st)).
Proof.
  unfold init_bucket, try_except, call_create_bucket.
  destruct (create_bucket bucket_name (s3 st)) as [[b|e] r]; [done|].
  simpl. destruct e; try done. by destruct (String.eqb _ _).
Qed.

Lemma get_region_name_run (b : bucket) (st : state remote) :
  get_region_name b st =
    (match fst (get_bucket_location (name b) (s3 st)) with
     | Return loc => Return (py_or loc "us-east-1")
     | Raise e => Raise e
     end,
     State (manifest st) (snd (get_bucket_location (name b) (s3 st))) (uploads st)).
Proof.
  unfold get_region_name, bind. rewrite call_remote_run.
  by destruct (fst (get_bucket_location (name b) (s3 st))).
Qed.

Lemma get_bucket_url_run (b : bucket) (st : state remote) :
  get_bucket_url b st =
    (match fst (get_bucket_location (name b) (s3 st)) with
     | Return loc =>
         match endpoint_host (py_or loc "us-east-1") with
         | Return host => Return ("http://" +:+ name b +:+ "." +:+ host)
         | Raise e => Raise e
         end
     | Raise e => Raise e
     end,
     State (manifest st) (snd (get_bucket_location (name b) (s3 st))) (uploads st)).
Proof.
  unfold get_bucket_url, bind. rewrite get_region_name_run.
  destruct (fst (get_bucket_location (name b) (s3 st))) as [loc|e]; [|done].
  unfold lift, ret. by destruct (endpoint_host _).
Qed.

(** X11. [get_bucket_url] answers with the scheme, the bucket's name, a
    dot and the host of the endpoint of the bucket's region. A bucket
    whose location constraint is [None] or empty is looked up under
    [us-east-1]; any other constraint is the region. An exception of the
    location lookup is raised before any endpoint is consulted. *)
Theorem get_bucket_url_region (b : bucket) (st : state remote) :
  let out := get_bucket_location (name b) (s3 st) in
  let st' := State (manifest st) (snd out) (uploads st) in
  let url_for region :=
    match endpoint_host region with
    | Return host => Return ("http://" +:+ name b +:+ "." +:+ host)
    | Raise e => Raise e
    end in
  (forall e, fst out = Raise e -> get_bucket_url b st = (Raise e, st'))
  /\ (fst out = Return None \/ fst out = Return (Some EmptyString) ->
      get_bucket_url b st = (url_for "us-east-1"%string, st'))
  /\ (forall region, region <> EmptyString -> fst out = Return (Some region) ->
      get_bucket_url b st = (url_for region, st')).
Proof.
  intros out st' url_for. subst out st' url_for.
  rewrite get_bucket_url_run. repeat split.
  - intros e ->. done.
  - intros [-> | ->]; done.
  - intros region Hne ->. by destruct region.
Qed.

(** X12. For every bucket name, the policy that [set_policy] puts is the
    template from its opening brace to its closing brace with the name in
    the place of [%s]: [strip] removes the line break and the indentation
    before the brace and nothing else. *)
Theorem set_policy_document (b : bucket) (st : state remote) :
  exists body tail,
    policy_head = nl +:+ "        {" +:+ body /\
    policy_tail = tail +:+ "}" /\
    set_policy b st =
      call_remote (policy_put b ("{" +:+ body +:+ name b +:+ tail +:+ "}")) st.
Proof.
  set (body := substring 10 (String.length policy_head - 10) policy_head).
  set (tail := substring 0 (String.length policy_tail - 1) policy_tail).
  assert (Hhead : policy_head = nl +:+ "        {" +:+ body)
    by (vm_compute; reflexivity).
  assert (Htail : policy_tail = tail +:+ "}") by (vm_compute; reflexivity).
  exists body, tail. split; [exact Hhead|]. split; [exact Htail|].
  unfold set_policy. rewrite Hhead, Htail. clearbody body tail.
  f_equal. f_equal.
  set (ws := list_ascii_of_string (nl +:+ "        ")).
  transitivity (strip (string_of_list_ascii ws
                       +:+ String "{" ((body +:+ name b +:+ tail)
                                       +:+ String "}" EmptyString))).
  - f_equal. subst ws. rewrite string_of_list_ascii_of_string.
    rewrite !append_assoc. reflexivity.
  - rewrite strip_framed.
    + rewrite !append_assoc. reflexivity.
    + subst ws. repeat constructor.
    + reflexivity.
    + reflexivity.
Qed.

Lemma setup_bucket_run (bucket_name : string) (st : state remote) :
  setup_bucket bucket_name st =
    match fst (init_bucket bucket_name st) with
    | Return b =>
        bind (set_policy b) (fun _ => configure_website b)
             (snd (init_bucket bucket_name st))
    | Raise e => (Raise e, snd (init_bucket bucket_name st))
    end.
Proof.
  unfold setup_bucket, bind at 1.
  by destruct (init_bucket bucket_name st) as [[b|e] st1].
Qed.

(** X13. [setup-bucket] stops at the first step that raises: when the
    creation raises anything but the already-owned error, no policy and
    no website configuration is put. When the bucket is already owned,
    or was created, the policy and then the website configuration are
    put on it. *)
Theorem setup_bucket_steps (bucket_name : string) (st : state remote) :
  let out := create_bucket bucket_name (s3 st) in
  let st' := State (manifest st) (snd out) (uploads st) in
  (forall e, fst out = Raise e ->
     (forall msg, e <> ClientError "BucketAlreadyOwnedByYou" msg) ->
     setup_bucket bucket_name st = (Raise e, st'))
  /\ (forall msg, fst out = Raise (ClientError "BucketAlreadyOwnedByYou" msg) ->
      setup_bucket bucket_name st =
        bind (set_policy (Bucket bucket_name))
             (fun _ => configure_website (Bucket bucket_name)) st')
  /\ (forall b, fst out = Return b ->
      setup_bucket bucket_name st =
        bind (set_policy b) (fun _ => configure_website b) st').
Proof.
  intros out st'. subst out st'. repeat split.
  - intros e He Hne. rewrite setup_bucket_run, init_bucket_run, He.
    destruct e as [f| |code msg|nm]; try done.
    destruct (String.eqb_spec code "BucketAlreadyOwnedByYou") as [->|]; [|done].
    by destruct (Hne msg).
  - intros msg He. by rewrite setup_bucket_run, init_bucket_run, He.
  - intros b He. by rewrite setup_bucket_run, init_bucket_run, He.
Qed.

Lemma get_bucket_url_manifest (b : bucket) (st : state remote) :
  manifest (snd (get_bucket_url b st)) = manifest st.
Proof. by rewrite get_bucket_url_run. Qed.

(** X14. The command [sync] prints at most one line, the URL of the
    bucket, and only when the synchronisation has returned. For a path
    that does not exist the command is rejected before [sync] is called:
    nothing is listed, uploaded or printed. When [sync] raises, the
    command raises the same exception, prints nothing and does not look
    up the bucket's location. *)
Theorem sync_command_output (pathname bucket_name : string) (c : cli_state remote) :
  let run := sync pathname bucket_name (manager c) in
  let out := sync_command pathname bucket_name c in
  if path_exists pathname then
    match fst run with
    | Raise e => out = (Raise e, CliState (snd run) (stdout c))
    | Return _ =>
        match fst (get_bucket_url (Bucket bucket_name) (snd run)) with
        | Raise e => fst out = Raise e /\ stdout (snd out) = stdout c
        | Return url =>
            fst out = Return tt /\ stdout (snd out) = stdout c ++ [url] /\
            exists host, url = "http://" +:+ bucket_name +:+ "." +:+ host
        end
    end
  else out = (Raise (OtherError "BadParameter"), c).
Proof.
  intros run out. subst run out. unfold sync_command.
  destruct (path_exists pathname); [|done].
  destruct (sync pathname bucket_name (manager c)) as [[[]|e] st1]; [|done].
  simpl fst. simpl snd.
  pose proof (get_bucket_url_run (Bucket bucket_name) st1) as Hurl.
  destruct (get_bucket_url (Bucket bucket_name) st1) as [[url|e] st2]; [|done].
  simpl. split; [done|]. split; [done|].
  injection Hurl as Hurl _.
  destruct (fst (get_bucket_location _ _)) as [loc|e]; [|done].
  destruct (endpoint_host _) as [host|e]; [|done].
  injection Hurl as ->. by exists host.
Qed.

(** X15. Run from the command line on a path that exists, [sync] decides
    with the listing alone: the group callback builds a new manager,
    whose manifest is empty, so the manifest of the run holds the listed
    entries and nothing else. For a path that does not exist nothing is
    listed and the manifest stays empty. *)
Theorem sync_command_manifest_from_listing (pathname bucket_name : string)
    (r : remote) (pages : list page) :
  paginate bucket_name r = (pages, None) ->
  manifest (manager (snd (sync_command pathname bucket_name (cli r))))
  = if path_exists pathname then fold_left load_page pages ∅ else ∅.
Proof.
  intros Hpages. unfold sync_command, cli.
  destruct (path_exists pathname); [|done]. simpl manager.
  pose proof (sync_run pathname bucket_name (new_manager r) pages Hpages) as Hrun.
  pose proof (handle_directory_manifest (Bucket bucket_name) (expand_resolve pathname)
                (tree_at (expand_resolve pathname))
                (State (fold_left load_page pages ∅) r [])) as Hm.
  change (manifest (new_manager r)) with (∅ : gmap string string) in Hrun.
  change (s3 (new_manager r)) with r in Hrun.
  change (uploads (new_manager r)) with (@nil upload_call) in Hrun.
  rewrite <- Hrun in Hm.
  destruct (sync pathname bucket_name (new_manager r)) as [[[]|e] st1]; [|exact Hm].
  pose proof (get_bucket_url_manifest (Bucket bucket_name) st1) as Hu.
  destruct (get_bucket_url (Bucket bucket_name) st1) as [[url|e] st2];
    simpl in *; congruence.
Qed.

End Services.

Lemma get_bucket_url_region_witness :
  get_bucket_url (col := demo_services) (Bucket "site")
    (new_manager [])
  = (Return "http://site.s3-website-us-east-1.amazonaws.com"%string, new_manager []).
Proof.
  pose proof (get_bucket_url_region (col := demo_services)
                (Bucket "site") (new_manager [])) as (_ & H & _).
  apply H. left. reflexivity.
Defined.

Example get_bucket_url_examples :
  fst (get_bucket_url (col := demo_services) (Bucket "paris")
         (new_manager []))
  = Return "http://paris.s3-website.eu-west-3.amazonaws.com"%string /\
  fst (get_bucket_url (col := demo_services) (Bucket "nowhere")
         (new_manager []))
  = Raise (ClientError "NoSuchBucket" "no such bucket").
Proof. split; reflexivity. Qed.

Lemma setup_bucket_steps_witness :
  setup_bucket (ext := posix_host) (col := demo_services) "webotron"
    (State ∅ ["webotron"%string] [])
  = bind (set_policy (col := demo_services) (Bucket "webotron"))
         (fun _ => configure_website (col := demo_services) (Bucket "webotron"))
         (State ∅ ["webotron"%string] []).
Proof.
  pose proof (setup_bucket_steps (ext := posix_host) (col := demo_services)
                "webotron" (State ∅ ["webotron"%string] [])) as (_ & H & _).
  apply (H "you own this bucket"%string). reflexivity.
Defined.

Example setup_bucket_examples :
  s3 (snd (setup_bucket (ext := posix_host) (col := demo_services) "webotron"
             (State ∅ ["webotron"%string] [])))
  = [ "website index.html error.html";
      "policy " +:+ strip (policy_head +:+ "webotron" +:+ policy_tail);
      "webotron" ]%string /\
  setup_bucket (ext := posix_host) (col := demo_services) "taken" (new_manager [])
  = (Raise (ClientError "BucketAlreadyExists" "the name is in use"), new_manager []).
Proof. split; vm_compute; reflexivity. Qed.

Lemma sync_command_manifest_from_listing_witness :
  manifest (manager (snd (sync_command (ext := posix_host) (col := demo_services)
                            "site" "site" (cli []))))
  = fold_left load_page demo_pages ∅.
Proof.
  apply (sync_command_manifest_from_listing (ext := posix_host)
           (col := demo_services) "site" "site" [] demo_pages).
  reflexivity.
Defined.

Example sync_command_prints_url :
  stdout (snd (sync_command (ext := posix_host) (col := demo_services)
                 "site" "site" (cli [])))
  = ["http://site.s3-website-us-east-1.amazonaws.com"%string] /\
  stdout (snd (sync_command (ext := lab_host) (col := demo_services)
                 "broken" "site" (cli [])))
  = [] /\
  sync_command (ext := lab_host) (col := demo_services) "nowhere" "site" (cli [])
  = (Raise (OtherError "BadParameter"), cli []).
Proof. repeat split; vm_compute; reflexivity. Qed.

(** A directory that cannot be listed stops the run where the walk
    reaches it: the file before it is uploaded, the file after it is
    not. *)
Example sync_locked_run :
  sync (ext := lab_host) "locked" "site" (new_manager [])
  = (Raise (OSError "/lab/locked/private"),
     State (fold_left load_page demo_pages ∅) []
           [the_upload (ext := lab_host) (Bucket "site")
              "/lab/locked/index.html" "index.html"]).
Proof. vm_compute. reflexivity. Qed.
